(** * sail / internal/environment: a shallow embedding of [environment.go]

    The development follows the Go file: the container lifecycle
    operations ([FindEnvironment], [Start], [Stop], [Remove], [Purge]),
    the two error classifiers ([isPathNotFound],
    [isContainerNotFoundError]) and the archive re-rooting routine
    [readPath].

    Go strings are byte sequences ([string], one [ascii] per byte).  The
    functions of the Go standard library that [environment.go] calls
    ([strings.TrimLeft], [strings.Contains], [filepath.Base], the
    [unicode/utf8] decoder behind them) are embedded in the modules
    [utf8], [strings] and [filepath]; the Docker client and [archive/tar]
    are embedded at the level of their calls, in [docker] and [tar].
    What the tar codec does to a header between writing and reading is
    a parameter of [tar]; [gotar] follows the library for the headers of
    files and directories and for a global header without a name. *)

From Stdlib Require Import String Ascii List ZArith NArith Bool Lia.
From Stdlib Require Import Zbitwise ZifyBool DecimalString.
Import ListNotations.

Open Scope string_scope.
Open Scope Z_scope.

(** ** Bytes and slices of a Go string *)

(** [s[i]] as an integer: the value of a byte. *)
Definition byte_val (c : ascii) : Z := Z.of_N (N_of_ascii c).

(** [byte(x)] for [0 <= x < 256]. *)
Definition byte_of (x : Z) : ascii := ascii_of_N (Z.to_N x).

(** [s[n:]]. *)
Fixpoint drop (n : nat) (s : string) : string :=
  match n, s with
  | O, _ => s
  | S n', String _ t => drop n' t
  | S _, EmptyString => EmptyString
  end.

(** [s[i]] where the index is known to be in range (Go panics otherwise;
    every use below is guarded by a length test). *)
Definition at_ (s : string) (i : nat) : Z :=
  match String.get i s with
  | Some c => byte_val c
  | None => 0
  end.

(** ** unicode/utf8 *)

Module utf8.

Definition RuneError : Z := 0xFFFD.
Definition RuneSelf : Z := 0x80.
Definition MaxRune : Z := 0x10FFFF.
Definition surrogateMin : Z := 0xD800.
Definition surrogateMax : Z := 0xDFFF.

Definition t2 : Z := 0xC0.
Definition t3 : Z := 0xE0.
Definition t4 : Z := 0xF0.
Definition tx : Z := 0x80.
Definition maskx : Z := 0x3F.
Definition mask2 : Z := 0x1F.
Definition mask3 : Z := 0x0F.
Definition mask4 : Z := 0x07.

Definition rune1Max : Z := 0x7F.
Definition rune2Max : Z := 0x7FF.
Definition rune3Max : Z := 0xFFFF.

Definition locb : Z := 0x80.
Definition hicb : Z := 0xBF.

(** Entries of the table [first]: the low three bits are the length of
    the sequence, the high four bits index [acceptRanges]. *)
Definition xx : Z := 0xF1.
Definition as_ : Z := 0xF0.
Definition s1 : Z := 0x02.
Definition s2 : Z := 0x13.
Definition s3 : Z := 0x03.
Definition s4 : Z := 0x23.
Definition s5 : Z := 0x34.
Definition s6 : Z := 0x04.
Definition s7 : Z := 0x44.

(** The 256-entry table [first], written by ranges of the index. *)
Definition first (b : Z) : Z :=
  if b <? 0x80 then as_
  else if b <? 0xC2 then xx
  else if b <? 0xE0 then s1
  else if b =? 0xE0 then s2
  else if b <? 0xED then s3
  else if b =? 0xED then s4
  else if b <? 0xF0 then s3
  else if b =? 0xF0 then s5
  else if b <? 0xF4 then s6
  else if b =? 0xF4 then s7
  else xx.

(** [acceptRanges[i]] as the pair [(lo, hi)]. *)
Definition acceptRanges (i : Z) : Z * Z :=
  if i =? 0 then (locb, hicb)
  else if i =? 1 then (0xA0, hicb)
  else if i =? 2 then (locb, 0x9F)
  else if i =? 3 then (0x90, hicb)
  else if i =? 4 then (locb, 0x8F)
  else (0, 0).

(** [utf8.DecodeRuneInString]: the first rune of [s] and its width in
    bytes; [(RuneError, 0)] on the empty string, [(RuneError, 1)] on an
    invalid encoding. *)
Definition DecodeRuneInString (s : string) : Z * nat :=
  let n := String.length s in
  if (n <? 1)%nat then (RuneError, O)
  else
    let s0 := at_ s 0 in
    let x := first s0 in
    if as_ <=? x then
      (* mask := rune(x) << 31 >> 31 is all ones exactly when bit 0 of x
         is set, that is for x = xx *)
      ((if Z.testbit x 0 then RuneError else s0), 1%nat)
    else
      let sz := Z.to_nat (Z.land x 7) in
      let accept := acceptRanges (Z.shiftr x 4) in
      if (n <? sz)%nat then (RuneError, 1%nat)
      else
        let s1 := at_ s 1 in
        if (s1 <? fst accept) || (snd accept <? s1) then (RuneError, 1%nat)
        else if (sz <=? 2)%nat then
          (Z.lor (Z.shiftl (Z.land s0 mask2) 6) (Z.land s1 maskx), 2%nat)
        else
          let s2 := at_ s 2 in
          if (s2 <? locb) || (hicb <? s2) then (RuneError, 1%nat)
          else if (sz <=? 3)%nat then
            (Z.lor (Z.lor (Z.shiftl (Z.land s0 mask3) 12)
                          (Z.shiftl (Z.land s1 maskx) 6))
                   (Z.land s2 maskx), 3%nat)
          else
            let s3 := at_ s 3 in
            if (s3 <? locb) || (hicb <? s3) then (RuneError, 1%nat)
            else
              (Z.lor (Z.lor (Z.lor (Z.shiftl (Z.land s0 mask4) 18)
                                   (Z.shiftl (Z.land s1 maskx) 12))
                            (Z.shiftl (Z.land s2 maskx) 6))
                     (Z.land s3 maskx), 4%nat).

(** [utf8.ValidRune]. *)
Definition ValidRune (r : Z) : bool :=
  if (0 <=? r) && (r <? surrogateMin) then true
  else if (surrogateMax <? r) && (r <=? MaxRune) then true
  else false.

(** [byte(x)] for an [int32] [x]: the low eight bits. *)
Definition low_byte (x : Z) : ascii := byte_of (Z.land x 0xFF).

Definition encode3 (r : Z) : string :=
  String (byte_of (Z.lor t3 (byte_val (low_byte (Z.shiftr r 12)))))
 (String (byte_of (Z.lor tx (Z.land (byte_val (low_byte (Z.shiftr r 6))) maskx)))
 (String (byte_of (Z.lor tx (Z.land (byte_val (low_byte r)) maskx)))
  EmptyString)).

(** [string(r)], the bytes [utf8.EncodeRune] writes for [r]. *)
Definition EncodeRune (r : Z) : string :=
  if (0 <=? r) && (r <=? rune1Max) then
    String (low_byte r) EmptyString
  else if (0 <=? r) && (r <=? rune2Max) then
    String (byte_of (Z.lor t2 (byte_val (low_byte (Z.shiftr r 6)))))
   (String (byte_of (Z.lor tx (Z.land (byte_val (low_byte r)) maskx)))
    EmptyString)
  else if (r <? 0) || (MaxRune <? r)
          || ((surrogateMin <=? r) && (r <=? surrogateMax)) then
    encode3 RuneError
  else if r <=? rune3Max then
    encode3 r
  else
    String (byte_of (Z.lor t4 (byte_val (low_byte (Z.shiftr r 18)))))
   (String (byte_of (Z.lor tx (Z.land (byte_val (low_byte (Z.shiftr r 12))) maskx)))
   (String (byte_of (Z.lor tx (Z.land (byte_val (low_byte (Z.shiftr r 6))) maskx)))
   (String (byte_of (Z.lor tx (Z.land (byte_val (low_byte r)) maskx)))
    EmptyString))).

End utf8.

(** ** strings *)

Module strings.

(** [strings.HasPrefix]. *)
Definition HasPrefix (s pre : string) : bool := String.prefix pre s.

Fixpoint index_from (i : Z) (s substr : string) : Z :=
  if HasPrefix s substr then i
  else match s with
       | EmptyString => -1
       | String _ t => index_from (i + 1) t substr
       end.

(** [strings.Index]: the index of the first instance of [substr] in
    [s], or [-1]. *)
Definition Index (s substr : string) : Z := index_from 0 s substr.

(** [strings.Contains]. *)
Definition Contains (s substr : string) : bool := 0 <=? Index s substr.

Fixpoint indexByte_from (i : Z) (s : string) (c : ascii) : Z :=
  match s with
  | EmptyString => -1
  | String b t => if Ascii.eqb b c then i else indexByte_from (i + 1) t c
  end.

(** [strings.IndexByte]. *)
Definition IndexByte (s : string) (c : ascii) : Z := indexByte_from 0 s c.

(** [for i, r := range s { if r == utf8.RuneError { return i } }; return -1].
    A [range] over a string decodes one rune per step, an invalid byte
    giving [RuneError] with width one; [fuel] bounds the number of steps
    and [String.length s] steps always reach the end. *)
Fixpoint rangeRuneError (fuel : nat) (i : Z) (s : string) : Z :=
  match fuel with
  | O => -1
  | S fuel' =>
      match s with
      | EmptyString => -1
      | String _ _ =>
          let (r, n) := utf8.DecodeRuneInString s in
          if r =? utf8.RuneError then i
          else rangeRuneError fuel' (i + Z.of_nat n) (drop n s)
      end
  end.

(** [strings.IndexRune]. *)
Definition IndexRune (s : string) (r : Z) : Z :=
  if (0 <=? r) && (r <? utf8.RuneSelf) then IndexByte s (utf8.low_byte r)
  else if r =? utf8.RuneError then rangeRuneError (String.length s) 0 s
  else if negb (utf8.ValidRune r) then -1
  else Index s (utf8.EncodeRune r).

(** [strings.ContainsRune]. *)
Definition ContainsRune (s : string) (r : Z) : bool := 0 <=? IndexRune s r.

(** [asciiSet]: the array [[8]uint32] read as one 256-bit set, bit
    [c%32] of word [c/32] being bit [c] here. *)
Definition asciiSet := Z.

Definition asciiSet_contains (as_ : asciiSet) (c : ascii) : bool :=
  negb (Z.land as_ (Z.shiftl 1 (byte_val c)) =? 0).

(** [makeASCIISet]: [(as, ok)], [ok] false when [chars] has a byte
    outside ASCII. *)
Fixpoint makeASCIISet_from (as_ : asciiSet) (chars : string) : asciiSet * bool :=
  match chars with
  | EmptyString => (as_, true)
  | String c t =>
      if utf8.RuneSelf <=? byte_val c then (as_, false)
      else makeASCIISet_from (Z.lor as_ (Z.shiftl 1 (byte_val c))) t
  end.

Definition makeASCIISet (chars : string) : asciiSet * bool :=
  makeASCIISet_from 0 chars.

Fixpoint trimLeftByte (s : string) (c : ascii) : string :=
  match s with
  | String b t => if Ascii.eqb b c then trimLeftByte t c else s
  | EmptyString => s
  end.

Fixpoint trimLeftASCII (s : string) (as_ : asciiSet) : string :=
  match s with
  | String b t => if asciiSet_contains as_ b then trimLeftASCII t as_ else s
  | EmptyString => s
  end.

(** [trimLeftUnicode]; every iteration removes at least one byte, so
    [String.length s] iterations are enough ([trimLeftUnicode_fuel]
    below). *)
Fixpoint trimLeftUnicode_loop (fuel : nat) (s cutset : string) : string :=
  match fuel with
  | O => s
  | S fuel' =>
      match s with
      | EmptyString => s
      | String b _ =>
          let (r, n) :=
            if utf8.RuneSelf <=? byte_val b then utf8.DecodeRuneInString s
            else (byte_val b, 1%nat) in
          if negb (ContainsRune cutset r) then s
          else trimLeftUnicode_loop fuel' (drop n s) cutset
      end
  end.

Definition trimLeftUnicode (s cutset : string) : string :=
  trimLeftUnicode_loop (String.length s) s cutset.

(** [strings.TrimLeft]: [s] with all leading Unicode code points
    contained in [cutset] removed. *)
Definition TrimLeft (s cutset : string) : string :=
  if ((String.length s =? 0) || (String.length cutset =? 0))%nat then s
  else if (String.length cutset =? 1)%nat && (at_ cutset 0 <? utf8.RuneSelf) then
    trimLeftByte s (byte_of (at_ cutset 0))
  else
    let (as_, ok) := makeASCIISet cutset in
    if ok then trimLeftASCII s as_
    else trimLeftUnicode s cutset.

End strings.

(** ** path/filepath (Unix) *)

Module filepath.

Definition Separator : ascii := "/"%char.

(** [os.IsPathSeparator]. *)
Definition IsPathSeparator (c : Z) : bool := c =? byte_val Separator.

(** [for len(path) > 0 && os.IsPathSeparator(path[len(path)-1])
       { path = path[0 : len(path)-1] }], [len] being the current
    length of [path]. *)
Fixpoint stripTrailingSeparators (path : string) (len : nat) : string :=
  match len with
  | O => EmptyString
  | S len' =>
      if IsPathSeparator (at_ path len') then stripTrailingSeparators path len'
      else String.substring 0 len path
  end.

(** [i := len(path) - 1; for i >= 0 && !os.IsPathSeparator(path[i]) { i-- }],
    called with [k = i + 1]; the result is the final [i]. *)
Fixpoint lastSeparator (path : string) (k : nat) : Z :=
  match k with
  | O => -1
  | S k' =>
      if IsPathSeparator (at_ path k') then Z.of_nat k'
      else lastSeparator path k'
  end.

(** [filepath.Base]: the last element of [path]; the volume name is
    empty on Unix. *)
Definition Base (path : string) : string :=
  if (String.length path =? 0)%nat then "."
  else
    let path := stripTrailingSeparators path (String.length path) in
    let i := lastSeparator path (String.length path) in
    let path := if 0 <=? i then drop (Z.to_nat (i + 1)) path else path in
    if (String.length path =? 0)%nat then String Separator EmptyString
    else path.

End filepath.

(** ** Errors

    A Go [error] value.  The package-level sentinels are compared by
    identity in Go and are constructors here; [Errorf ctx err] is
    [xerrors.Errorf(ctx + "%w", err)] with the other verbs of the format
    already substituted in [ctx]; [LibError msg] is any other error value
    handed out by a library (the Docker client, the transport, the tar
    codec), known by its message. *)

Inductive error : Type :=
| EOF
| ErrUnexpectedEOF
| ErrMissingContainer
| errNoSuchFile
| ErrWriteTooLong
| errMissedWriting (nb : Z)
| LibError (msg : string)
| Errorf (ctx : string) (err : error).

(** The method [Error()]. *)
Fixpoint Error (e : error) : string :=
  match e with
  | EOF => "EOF"
  | ErrUnexpectedEOF => "unexpected EOF"
  | ErrMissingContainer => "missing container"
  | errNoSuchFile => "no such file"
  | ErrWriteTooLong => "archive/tar: write too long"
  | errMissedWriting nb =>
      "archive/tar: missed writing "
        ++ NilEmpty.string_of_int (Z.to_int nb) ++ " bytes"
  | LibError msg => msg
  | Errorf ctx err => ctx ++ Error err
  end.

(** [err == io.EOF]. *)
Definition is_EOF (e : error) : bool :=
  match e with
  | EOF => true
  | _ => false
  end.

(** ** archive/tar

    The codec is embedded at the level of its calls.  A stream that a
    [tar.Reader] decodes is described by what the reader returns from it:
    the entries in order, each with the bytes [Read] delivers and the
    error that ends them ([io.EOF] when the payload is complete), and the
    error of the [Next] call that finds no further header ([io.EOF] at
    the end of the archive).  What a [tar.Writer] has put in its
    underlying buffer is described by the calls that filled it: the
    headers handed to [WriteHeader], the payload bytes written after
    each, and whether [Close] has written the end-of-archive trailer.
    The bytes of a header in the buffer are the writer's business: it
    chooses the format, derives the PAX records from the fields and
    names some entries itself.  What a reader makes of them is therefore
    not the header that was handed over; it is left to the codec, as the
    function [reread] of [stream_of]. *)

Module tar.

Record Header : Type := {
  Typeflag : ascii;
  Name : string;
  Linkname : string;
  Size : Z;
  Mode : Z;
  Uid : Z;
  Gid : Z;
  Uname : string;
  Gname : string;
  ModTime : Z;
  AccessTime : Z;
  ChangeTime : Z;
  Devmajor : Z;
  Devminor : Z;
  Xattrs : list (string * string);
  PAXRecords : list (string * string);
  Format : Z
}.

(** [hdr.Name = name]. *)
Definition set_Name (hdr : Header) (name : string) : Header :=
  {| Typeflag := Typeflag hdr;
     Name := name;
     Linkname := Linkname hdr;
     Size := Size hdr;
     Mode := Mode hdr;
     Uid := Uid hdr;
     Gid := Gid hdr;
     Uname := Uname hdr;
     Gname := Gname hdr;
     ModTime := ModTime hdr;
     AccessTime := AccessTime hdr;
     ChangeTime := ChangeTime hdr;
     Devmajor := Devmajor hdr;
     Devminor := Devminor hdr;
     Xattrs := Xattrs hdr;
     PAXRecords := PAXRecords hdr;
     Format := Format hdr |}.

Definition TypeReg : ascii := "0"%char.
Definition TypeLink : ascii := "1"%char.
Definition TypeSymlink : ascii := "2"%char.
Definition TypeChar : ascii := "3"%char.
Definition TypeBlock : ascii := "4"%char.
Definition TypeDir : ascii := "5"%char.
Definition TypeFifo : ascii := "6"%char.

(** [isHeaderOnlyType]: the entry types that carry no payload. *)
Definition isHeaderOnlyType (flag : ascii) : bool :=
  Ascii.eqb flag TypeLink || Ascii.eqb flag TypeSymlink
  || Ascii.eqb flag TypeChar || Ascii.eqb flag TypeBlock
  || Ascii.eqb flag TypeDir || Ascii.eqb flag TypeFifo.

(** The number of payload bytes that belong to an entry with header
    [hdr]. *)
Definition payloadSize (hdr : Header) : Z :=
  if isHeaderOnlyType (Typeflag hdr) then 0 else Size hdr.

(** *** Reading *)

Record Entry : Type := {
  hdr : Header;
  data : list Byte.byte;
  dataEnd : error
}.

(** The underlying [io.Reader], as a tar stream. *)
Record Stream : Type := {
  entries : list Entry;
  final : error
}.

Record Reader : Type := {
  curr : list Byte.byte * error;
  rest : Stream
}.

(** [tar.NewReader]. *)
Definition NewReader (r : Stream) : Reader :=
  {| curr := ([], EOF); rest := r |}.

(** [tr.Next()]: the next header, or the error that stands in its place
    ([io.EOF] at the end of the archive).  Whatever is unread of the
    current payload is skipped. *)
Definition Next (tr : Reader) : (Header + error) * Reader :=
  match entries (rest tr) with
  | [] => (inr (final (rest tr)), tr)
  | e :: es =>
      (inl (hdr e),
       {| curr := (data e, dataEnd e);
          rest := {| entries := es; final := final (rest tr) |} |})
  end.

(** *** Writing *)

(** The buffer under a [tar.Writer], by the calls that filled it:
    [files] are the headers handed to [WriteHeader], in order, each with
    the payload bytes that [Write] accepted after it; [trailer] tells
    whether [Close] has written the end of the archive. *)
Record Archive : Type := {
  files : list (Header * list Byte.byte);
  trailer : bool
}.

Record Writer : Type := {
  w : Archive;
  nb : Z
}.

(** [tar.NewWriter(&buf)] on an empty buffer. *)
Definition NewWriter : Writer :=
  {| w := {| files := []; trailer := false |}; nb := 0 |}.

(** [tw.Flush()] as far as it can fail over a [bytes.Buffer]: payload
    bytes of the current entry are still missing. *)
Definition Flush (tw : Writer) : option error :=
  if 0 <? nb tw then Some (errMissedWriting (nb tw)) else None.

(** [tw.WriteHeader(hdr)].  [allowedFormats hdr] is the error of
    [hdr.allowedFormats()] when no format can encode the header; in Go
    it refuses, among others, a negative size on an entry with a
    payload, so that [nb] is never negative there.  An accepted header
    is recorded as it was handed over; how it is encoded, and so what a
    reader gets back for it, is not decided here (see [stream_of]). *)
Definition WriteHeader (allowedFormats : Header -> option error)
  (tw : Writer) (hdr : Header) : option error * Writer :=
  match Flush tw with
  | Some err => (Some err, tw)
  | None =>
      match allowedFormats hdr with
      | Some err => (Some err, tw)
      | None =>
          (None,
           {| w := {| files := (files (w tw) ++ [(hdr, [])])%list;
                      trailer := trailer (w tw) |};
              nb := payloadSize hdr |})
      end
  end.

(** Bytes appended to the payload of the entry being written. *)
Fixpoint append_data (fs : list (Header * list Byte.byte)) (b : list Byte.byte)
  : list (Header * list Byte.byte) :=
  match fs with
  | [] => []
  | [f] => [(fst f, (snd f ++ b)%list)]
  | f :: fs' => f :: append_data fs' b
  end.

(** [tw.Write(b)]: at most [nb] bytes are accepted, [ErrWriteTooLong]
    reports the excess. *)
Definition Write (tw : Writer) (b : list Byte.byte) : option error * Writer :=
  let overwrite := nb tw <? Z.of_nat (List.length b) in
  let b' := if overwrite then firstn (Z.to_nat (nb tw)) b else b in
  (if overwrite then Some ErrWriteTooLong else None,
   {| w := {| files := append_data (files (w tw)) b';
              trailer := trailer (w tw) |};
      nb := nb tw - Z.of_nat (List.length b') |}).

(** [tw.Close()]: flush, then the two zero blocks of the trailer. *)
Definition Close (tw : Writer) : option error * Writer :=
  match Flush tw with
  | Some err => (Some err, tw)
  | None =>
      (None, {| w := {| files := files (w tw); trailer := true |};
                nb := nb tw |})
  end.

(** The stream a reader finds in a buffer filled by a [Writer].
    [reread hdr] is the header that [Next] gives back for an entry that
    [WriteHeader] wrote from [hdr]: the writer's encoding followed by the
    reader's decoding, which need not be [hdr] itself.  The payload is
    the bytes written after the header; an entry whose payload is
    shorter than the header handed over says ends in
    [io.ErrUnexpectedEOF]. *)
Definition stream_of (reread : Header -> Header) (a : Archive) : Stream :=
  {| entries :=
       map (fun f =>
              {| hdr := reread (fst f);
                 data := snd f;
                 dataEnd :=
                   if Z.of_nat (List.length (snd f)) =? payloadSize (fst f)
                   then EOF else ErrUnexpectedEOF |})
           (files a);
     final := EOF |}.

End tar.

(** ** io *)

Module io.

(** [io.Copy(tw, tr)]: the payload of the current entry goes from the
    reader to the writer; a write error stops the copy, otherwise the
    error that ended the payload is returned unless it is [io.EOF].  The
    bytes are handed over in one piece: the chunks of [io.Copy] add up
    to the same bytes written and the same error. *)
Definition Copy (tw : tar.Writer) (tr : tar.Reader)
  : option error * tar.Writer * tar.Reader :=
  let (b, er) := tar.curr tr in
  let tr' := {| tar.curr := ([], er); tar.rest := tar.rest tr |} in
  match b with
  | [] => (if is_EOF er then None else Some er, tw, tr')
  | _ :: _ =>
      match tar.Write tw b with
      | (Some ew, tw') => (Some ew, tw', tr')
      | (None, tw') => (if is_EOF er then None else Some er, tw', tr')
      end
  end.

End io.

(** ** The Docker client

    The daemon is outside the program.  Its answer to a call may depend
    on everything that was asked of it before, so it is a function of
    the calls made so far; the program's side of the conversation is the
    log of calls, threaded through every operation.  The cancellation
    context passed to each call is left out: the program only hands it
    on. *)

Module types.

Record ContainerJSON : Type := {
  ID : string;
  Image : string;
  Name : string
}.

(** The zero value, returned next to an error. *)
Definition zeroContainerJSON : ContainerJSON :=
  {| ID := ""; Image := ""; Name := "" |}.

End types.

Module docker.

Inductive call : Type :=
| NewClient
| ClientClose
| Inspect (container : string)
| StartContainer (container : string)
| StopContainer (container : string)
| RemoveContainer (container : string)
| CopyFrom (container : string) (path : string)
| BodyClose.

Definition log := list call.

Record Daemon : Type := {
  inspect : log -> string -> types.ContainerJSON * option error;
  start : log -> string -> option error;
  stop : log -> string -> option error;
  remove : log -> string -> option error;
  (** A successful copy answers with the body of the response, the tar
      stream of the path; a failed one with the error and no body. *)
  copy : log -> string -> string -> tar.Stream + error
}.

(** Computations that talk to the daemon. *)
Definition M (A : Type) : Type := log -> A * log.

Definition ret {A : Type} (a : A) : M A := fun l => (a, l).

Definition bind {A B : Type} (m : M A) (k : A -> M B) : M B :=
  fun l => let (a, l') := m l in k a l'.

Definition emit (c : call) : M unit := fun l => (tt, (l ++ [c])%list).

(** [defer cleanup] around the rest of the function body: [cleanup]
    runs once the result is computed, on every return. *)
Definition defer {A : Type} (cleanup : M unit) (body : M A) : M A :=
  bind body (fun r => bind cleanup (fun _ => ret r)).

(** Modelled from the spec: [dockerClient] is a function of the package
    that is not in [environment.go].  Each operation opens a fresh
    connection to the runtime and releases it before it returns; here
    the opening is a call in the log. *)
Definition dockerClient : M unit := emit NewClient.

(** [cli.Close()]. *)
Definition Close : M unit := emit ClientClose.

(** [cli.ContainerInspect(ctx, name)]. *)
Definition ContainerInspect (d : Daemon) (name : string)
  : M (types.ContainerJSON * option error) :=
  fun l => (inspect d l name, (l ++ [Inspect name])%list).

(** [cli.ContainerStart(ctx, name, types.ContainerStartOptions{})]. *)
Definition ContainerStart (d : Daemon) (name : string) : M (option error) :=
  fun l => (start d l name, (l ++ [StartContainer name])%list).

(** [cli.ContainerStop(ctx, name, nil)]. *)
Definition ContainerStop (d : Daemon) (name : string) : M (option error) :=
  fun l => (stop d l name, (l ++ [StopContainer name])%list).

(** [cli.ContainerRemove(ctx, name, types.ContainerRemoveOptions{})]. *)
Definition ContainerRemove (d : Daemon) (name : string) : M (option error) :=
  fun l => (remove d l name, (l ++ [RemoveContainer name])%list).

(** [cli.CopyFromContainer(ctx, name, path)]; the path stat is dropped
    by the caller. *)
Definition CopyFromContainer (d : Daemon) (name path : string)
  : M (tar.Stream + error) :=
  fun l => (copy d l name path, (l ++ [CopyFrom name path])%list).

(** [rdr.Close()] on the body of a copy response. *)
Definition CloseBody : M unit := emit BodyClose.

End docker.

Notation "x <- c ;; k" := (docker.bind c (fun x => k))
  (at level 61, c at next level, right associativity).
Notation "' pat <- c ;; k" := (docker.bind c (fun x => match x with pat => k end))
  (at level 61, pat pattern, c at next level, right associativity).

(** ** os/exec *)

Module exec.

(** The fields of [exec.Cmd] that [exec.Command] sets. *)
Record Cmd : Type := {
  Path : string;
  Args : list string;
  Err : option error
}.

(** [exec.CommandContext(ctx, name, arg...)]: the command is described,
    not started.  [LookPath] searches the directories of [PATH] and is
    the caller's file system; it is asked when [name] has no directory
    part.  It returns a path and an error, and may return both (a
    program found in the current directory comes with [exec.ErrDot]):
    the path is taken when it is not empty, the error when it is not
    [nil], each on its own. *)
Definition CommandContext (LookPath : string -> string * option error)
  (name : string) (arg : list string) : Cmd :=
  let cmd := {| Path := name; Args := ([name] ++ arg)%list; Err := None |} in
  if String.eqb (filepath.Base name) name then
    let (lp, err) := LookPath name in
    let cmd :=
      if negb (String.eqb lp EmptyString)
      then {| Path := lp; Args := Args cmd; Err := Err cmd |}
      else cmd in
    match err with
    | Some err => {| Path := Path cmd; Args := Args cmd; Err := Some err |}
    | None => cmd
    end
  else cmd.

End exec.

(** ** package environment *)

Record Environment : Type := {
  name : string;
  cnt : types.ContainerJSON
}.

(** [isPathNotFound]. *)
Definition isPathNotFound (err : option error) : bool :=
  match err with
  | None => false
  | Some e => strings.Contains (Error e) "No such container:path"
  end.

(** [isContainerNotFoundError]. *)
Definition isContainerNotFoundError (err : option error) : bool :=
  match err with
  | None => false
  | Some e => strings.Contains (Error e) "No such container"
  end.

(** [Start]. *)
Definition Start (d : docker.Daemon) (env : Environment)
  : docker.M (option error) :=
  _ <- docker.dockerClient ;;
  docker.defer docker.Close
    (err <- docker.ContainerStart d (name env) ;;
     match err with
     | Some e => docker.ret (Some (Errorf "failed to start container: " e))
     | None => docker.ret None
     end).

(** [Stop]. *)
Definition Stop (d : docker.Daemon) (env : Environment)
  : docker.M (option error) :=
  _ <- docker.dockerClient ;;
  docker.defer docker.Close
    (err <- docker.ContainerStop d (name env) ;;
     match err with
     | Some e => docker.ret (Some (Errorf "failed to stop container: " e))
     | None => docker.ret None
     end).

(** [Remove]. *)
Definition Remove (d : docker.Daemon) (env : Environment)
  : docker.M (option error) :=
  _ <- docker.dockerClient ;;
  docker.defer docker.Close
    (err <- docker.ContainerRemove d (name env) ;;
     match err with
     | Some e => docker.ret (Some (Errorf "failed to remove container: " e))
     | None => docker.ret None
     end).

(** [FindEnvironment]: the handle, or [nil] and the error. *)
Definition FindEnvironment (d : docker.Daemon) (name : string)
  : docker.M (option Environment * option error) :=
  _ <- docker.dockerClient ;;
  docker.defer docker.Close
    ('(cnt, err) <- docker.ContainerInspect d name ;;
     if isContainerNotFoundError err then
       docker.ret (None, Some ErrMissingContainer)
     else
       match err with
       | Some e =>
           docker.ret (None, Some (Errorf "failed to inspect container: " e))
       | None =>
           let env := {| name := name; cnt := cnt |} in
           (* Start it up. *)
           err <- Start d env ;;
           match err with
           | Some e => docker.ret (None, Some e)
           | None => docker.ret (Some env, None)
           end
       end).

(** [Purge]. *)
Definition Purge (d : docker.Daemon) (env : Environment)
  : docker.M (option error) :=
  err <- Stop d env ;;
  match err with
  | Some e => docker.ret (Some e)
  | None =>
      err <- Remove d env ;;
      match err with
      | Some e => docker.ret (Some e)
      | None => docker.ret None
      end
  end.

(** The method [Exec] of [Environment]. *)
Definition Exec (LookPath : string -> string * option error)
  (e : Environment)
  (cmd : string) (args : list string) : exec.Cmd :=
  let args := (["exec"; "-i"; name e; cmd] ++ args)%list in
  exec.CommandContext LookPath "docker" args.

(** The method [ExecTTY] of [Environment]. *)
Definition ExecTTY (LookPath : string -> string * option error)
  (e : Environment)
  (cmd : string) (args : list string) : exec.Cmd :=
  let args := (["exec"; "-it"; name e; cmd] ++ args)%list in
  exec.CommandContext LookPath "docker" args.

(** The statement [hdr.Name = strings.TrimLeft(hdr.Name, base+"/")]. *)
Definition rename (base : string) (hdr : tar.Header) : tar.Header :=
  tar.set_Name hdr (strings.TrimLeft (tar.Name hdr) (base ++ "/")).

(** The [for] loop of [readPath].  [es] and [fin] are what the reader
    [tr] still has to deliver, so the [match] is the call [tr.Next()]
    ([readPath_loop_Next] below states the iteration with [tar.Next]);
    the result is the writer at [break], or the error of a [return]. *)
Fixpoint readPath_loop (allowedFormats : tar.Header -> option error)
  (base : string) (es : list tar.Entry) (fin : error) (tw : tar.Writer)
  : tar.Writer + error :=
  match es with
  | [] =>
      if is_EOF fin then inl tw
      else inr (Errorf "failed to read from tar reader: " fin)
  | e :: es' =>
      let tr :=
        {| tar.curr := (tar.data e, tar.dataEnd e);
           tar.rest := {| tar.entries := es'; tar.final := fin |} |} in
      let hdr := rename base (tar.hdr e) in
      match tar.WriteHeader allowedFormats tw hdr with
      | (Some err, _) => inr (Errorf "failed to write header: " err)
      | (None, tw) =>
          match io.Copy tw tr with
          | (Some err, _, _) => inr (Errorf "failed to copy: " err)
          | (None, tw, _) => readPath_loop allowedFormats base es' fin tw
          end
      end
  end.

(** The end of [readPath]: after a [break], [tw.Close()] and the
    return of the buffer; an error returned from inside the loop is
    returned with a [nil] reader. *)
Definition readPath_finish (r : tar.Writer + error)
  : option tar.Archive * option error :=
  match r with
  | inr err => (None, Some err)
  | inl tw =>
      match tar.Close tw with
      | (Some err, _) =>
          (None, Some (Errorf "failed to close tar writer: " err))
      | (None, tw) => (Some (tar.w tw), None)
      end
  end.

(** [readPath] from the creation of the buffer on: the archive in
    [buf], or [nil] and the error. *)
Definition readPath_body (allowedFormats : tar.Header -> option error)
  (path : string) (rdr : tar.Stream) : option tar.Archive * option error :=
  let base := filepath.Base path in
  let tr := tar.NewReader rdr in
  let tw := tar.NewWriter in
  readPath_finish
    (readPath_loop allowedFormats base
       (tar.entries (tar.rest tr)) (tar.final (tar.rest tr)) tw).

(** The method [readPath] of [Environment]. *)
Definition readPath (allowedFormats : tar.Header -> option error)
  (d : docker.Daemon) (e : Environment) (path : string)
  : docker.M (option tar.Archive * option error) :=
  _ <- docker.dockerClient ;;
  docker.defer docker.Close
    (resp <- docker.CopyFromContainer d (name e) path ;;
     let err := match resp with inl _ => None | inr err => Some err end in
     if isPathNotFound err then docker.ret (None, Some errNoSuchFile)
     else
       match resp with
       | inr err =>
           docker.ret
             (None,
              Some (Errorf ("failed to get reader for path '" ++ path ++ "': ")
                           err))
       | inl rdr =>
           docker.defer docker.CloseBody
             (docker.ret (readPath_body allowedFormats path rdr))
       end).

(** ** Vocabulary of the statements *)

(** Every byte of [s] is below [utf8.RuneSelf]. *)
Fixpoint allASCII (s : string) : bool :=
  match s with
  | EmptyString => true
  | String c t => (byte_val c <? utf8.RuneSelf) && allASCII t
  end.

(** [LeadingRun inset s out]: [out] is what is left of [s] once a
    leading run of characters, each of them in the set [inset], is taken
    away.  The characters of a string are the runes Go decodes from it,
    one [utf8.DecodeRuneInString] after the other. *)
Inductive LeadingRun (inset : Z -> bool) : string -> string -> Prop :=
| run_stop : forall s, LeadingRun inset s s
| run_step : forall s r n out,
    s <> "" ->
    utf8.DecodeRuneInString s = (r, n) ->
    inset r = true ->
    LeadingRun inset (drop n s) out ->
    LeadingRun inset s out.

(** No longer run: [out] is empty or starts with a character outside
    the set. *)
Definition StartsOutside (inset : Z -> bool) (out : string) : Prop :=
  out = "" \/ inset (fst (utf8.DecodeRuneInString out)) = false.

(** [out] is [s] with the longest leading run of characters of the set
    removed. *)
Definition TrimmedLeft (inset : Z -> bool) (s out : string) : Prop :=
  LeadingRun inset s out /\ StartsOutside inset out.

(** The character set of [base] together with ['/']. *)
Definition trimSet (base : string) (r : Z) : bool :=
  strings.ContainsRune base r || (r =? byte_val "/"%char).

(** The headers agree in every field but [Name]. *)
Definition same_except_Name (h1 h2 : tar.Header) : Prop :=
  tar.Typeflag h1 = tar.Typeflag h2
  /\ tar.Linkname h1 = tar.Linkname h2
  /\ tar.Size h1 = tar.Size h2
  /\ tar.Mode h1 = tar.Mode h2
  /\ tar.Uid h1 = tar.Uid h2
  /\ tar.Gid h1 = tar.Gid h2
  /\ tar.Uname h1 = tar.Uname h2
  /\ tar.Gname h1 = tar.Gname h2
  /\ tar.ModTime h1 = tar.ModTime h2
  /\ tar.AccessTime h1 = tar.AccessTime h2
  /\ tar.ChangeTime h1 = tar.ChangeTime h2
  /\ tar.Devmajor h1 = tar.Devmajor h2
  /\ tar.Devminor h1 = tar.Devminor h2
  /\ tar.Xattrs h1 = tar.Xattrs h2
  /\ tar.PAXRecords h1 = tar.PAXRecords h2
  /\ tar.Format h1 = tar.Format h2.


(** The four phases of the transcoding that can fail, and the context
    [readPath] wraps the error of each in. *)
Inductive phase : Type :=
| ReadingHeader
| WritingHeader
| CopyingPayload
| Finalizing.

Definition phase_context (p : phase) : string :=
  match p with
  | ReadingHeader => "failed to read from tar reader: "
  | WritingHeader => "failed to write header: "
  | CopyingPayload => "failed to copy: "
  | Finalizing => "failed to close tar writer: "
  end.

(** [FirstFailure allowedFormats base tr tw p err]: transcoding from the
    reader [tr] into the writer [tw], the codec calls succeed entry
    after entry until the call of phase [p] fails with [err]. *)
Inductive FirstFailure (allowedFormats : tar.Header -> option error)
  (base : string) : tar.Reader -> tar.Writer -> phase -> error -> Prop :=
| fails_read : forall tr tw err tr',
    tar.Next tr = (inr err, tr') ->
    is_EOF err = false ->
    FirstFailure allowedFormats base tr tw ReadingHeader err
| fails_write : forall tr tw hdr tr' err tw',
    tar.Next tr = (inl hdr, tr') ->
    tar.WriteHeader allowedFormats tw (rename base hdr) = (Some err, tw') ->
    FirstFailure allowedFormats base tr tw WritingHeader err
| fails_copy : forall tr tw hdr tr1 tw1 err tw2 tr2,
    tar.Next tr = (inl hdr, tr1) ->
    tar.WriteHeader allowedFormats tw (rename base hdr) = (None, tw1) ->
    io.Copy tw1 tr1 = (Some err, tw2, tr2) ->
    FirstFailure allowedFormats base tr tw CopyingPayload err
| fails_close : forall tr tw tr' err tw',
    tar.Next tr = (inr EOF, tr') ->
    tar.Close tw = (Some err, tw') ->
    FirstFailure allowedFormats base tr tw Finalizing err
| fails_later : forall tr tw hdr tr1 tw1 tw2 tr2 p err,
    tar.Next tr = (inl hdr, tr1) ->
    tar.WriteHeader allowedFormats tw (rename base hdr) = (None, tw1) ->
    io.Copy tw1 tr1 = (None, tw2, tr2) ->
    FirstFailure allowedFormats base tr2 tw2 p err ->
    FirstFailure allowedFormats base tr tw p err.

(** The clients open after the calls [cs], [n] being open before;
    [None] when a client is closed that is not open or the daemon is
    asked without an open client. *)
Fixpoint clients_open (n : nat) (cs : list docker.call) : option nat :=
  match cs with
  | [] => Some n
  | docker.NewClient :: cs' => clients_open (S n) cs'
  | docker.ClientClose :: cs' =>
      match n with
      | O => None
      | S n' => clients_open n' cs'
      end
  | _ :: cs' =>
      match n with
      | O => None
      | S _ => clients_open n cs'
      end
  end.

(** A request that changes the state of a container. *)
Definition is_lifecycle (c : docker.call) : bool :=
  match c with
  | docker.StartContainer _ | docker.StopContainer _
  | docker.RemoveContainer _ => true
  | _ => false
  end.

(** The call opens or closes a connection, or is a request about the
    container [n]. *)
Definition about (n : string) (c : docker.call) : bool :=
  match c with
  | docker.Inspect m | docker.StartContainer m | docker.StopContainer m
  | docker.RemoveContainer m | docker.CopyFrom m _ => String.eqb m n
  | docker.NewClient | docker.ClientClose | docker.BodyClose => true
  end.

(** [s] is made of ['/'] only. *)
Fixpoint only_separators (s : string) : bool :=
  match s with
  | EmptyString => true
  | String c t => Ascii.eqb c filepath.Separator && only_separators t
  end.

(** There is no ['/'] in [s]. *)
Fixpoint no_separator (s : string) : bool :=
  match s with
  | EmptyString => true
  | String c t => negb (Ascii.eqb c filepath.Separator) && no_separator t
  end.

(** [seg] is the final segment of [path]: what stands between the last
    ['/'] that is followed by something else and the ['/'] at the end of
    [path], if there are any.  The empty path has the segment ["."], a
    path of ['/'] only the segment ["/"]. *)
Definition LastSegment (path seg : string) : Prop :=
  (path = "" /\ seg = ".")
  \/ (path <> "" /\ only_separators path = true /\ seg = "/")
  \/ (seg <> "" /\ no_separator seg = true
      /\ exists dir seps,
           path = dir ++ seg ++ seps
           /\ only_separators seps = true
           /\ (dir = "" \/ exists dir', dir = dir' ++ "/")).

(** ** A sample runtime

    The container [web1] holds the directory [/data/logs] with the files
    [a.log] (10 bytes), [b.log] (20 bytes) and [slogs_extra] (5 bytes);
    the daemon answers as the Docker client does, a directory being
    archived under its own name. *)

Module sample.

Definition header (flag : ascii) (name : string) (size : Z) : tar.Header :=
  {| tar.Typeflag := flag;
     tar.Name := name;
     tar.Linkname := "";
     tar.Size := size;
     tar.Mode := 420;
     tar.Uid := 0;
     tar.Gid := 0;
     tar.Uname := "root";
     tar.Gname := "root";
     tar.ModTime := 1600000000;
     tar.AccessTime := 0;
     tar.ChangeTime := 0;
     tar.Devmajor := 0;
     tar.Devminor := 0;
     tar.Xattrs := [];
     tar.PAXRecords := [];
     tar.Format := 2 |}.

Definition entry (flag : ascii) (name : string) (payload : list Byte.byte)
  : tar.Entry :=
  {| tar.hdr := header flag name (Z.of_nat (List.length payload));
     tar.data := payload;
     tar.dataEnd := EOF |}.

Definition logs : tar.Stream :=
  {| tar.entries :=
       [ entry tar.TypeDir "logs/" [];
         entry tar.TypeReg "logs/a.log" (repeat Byte.x61 10);
         entry tar.TypeReg "logs/b.log" (repeat Byte.x62 20);
         entry tar.TypeReg "logs/slogs_extra" (repeat Byte.x63 5) ];
     tar.final := EOF |}.

(** An empty directory [/data/empty] archived without any entry. *)
Definition nothing : tar.Stream :=
  {| tar.entries := []; tar.final := EOF |}.

(** A transfer of [/data/cut] that breaks off in the payload of the
    second entry. *)
Definition cut : tar.Stream :=
  {| tar.entries :=
       [ entry tar.TypeDir "cut/" [];
         {| tar.hdr := header tar.TypeReg "cut/a.log" 10;
            tar.data := repeat Byte.x61 4;
            tar.dataEnd := ErrUnexpectedEOF |} ];
     tar.final := ErrUnexpectedEOF |}.

Definition noSuchContainer (name : string) : error :=
  LibError ("Error: No such container: " ++ name).

Definition noSuchPath (name path : string) : error :=
  LibError ("Error: No such container:path: " ++ name ++ ":" ++ path).

Definition web1 : types.ContainerJSON :=
  {| types.ID := "4f2a9c"; types.Image := "codercom/ubuntu-dev";
     types.Name := "/web1" |}.

(** [web1] is the only container; it cannot be stopped twice. *)
Definition daemon : docker.Daemon :=
  {| docker.inspect := fun _ name =>
       if String.eqb name "web1" then (web1, None)
       else (types.zeroContainerJSON, Some (noSuchContainer name));
     docker.start := fun _ name =>
       if String.eqb name "web1" then None else Some (noSuchContainer name);
     docker.stop := fun l name =>
       if String.eqb name "web1" then
         if existsb (fun c => match c with
                              | docker.StopContainer _ => true
                              | _ => false
                              end) l
         then Some (LibError "Error: container already stopped")
         else None
       else Some (noSuchContainer name);
     docker.remove := fun _ name =>
       if String.eqb name "web1" then None else Some (noSuchContainer name);
     docker.copy := fun _ name path =>
       if String.eqb name "web1" then
         if String.eqb path "/data/logs" then inl logs
         else if String.eqb path "/data/empty" then inl nothing
         else if String.eqb path "/data/cut" then inl cut
         else inr (noSuchPath name path)
       else inr (noSuchPath name path) |}.

Definition env : Environment :=
  {| name := "web1"; cnt := web1 |}.

(** Every header can be encoded. *)
Definition allowedFormats (_ : tar.Header) : option error := None.

End sample.

(** ** Sample runtimes that fail *)

Module faulty.

Definition unreachable : error :=
  LibError "Cannot connect to the Docker daemon at unix:///var/run/docker.sock. Is the docker daemon running?".

(** No daemon answers. *)
Definition down : docker.Daemon :=
  {| docker.inspect := fun _ _ => (types.zeroContainerJSON, Some unreachable);
     docker.start := fun _ _ => Some unreachable;
     docker.stop := fun _ _ => Some unreachable;
     docker.remove := fun _ _ => Some unreachable;
     docker.copy := fun _ _ _ => inr unreachable |}.

(** [web1] is inspected and is gone when it is to be started. *)
Definition vanishing : docker.Daemon :=
  {| docker.inspect := fun _ _ => (sample.web1, None);
     docker.start := fun _ name => Some (sample.noSuchContainer name);
     docker.stop := fun _ name => Some (sample.noSuchContainer name);
     docker.remove := fun _ name => Some (sample.noSuchContainer name);
     docker.copy := fun _ name path => inr (sample.noSuchPath name path) |}.

(** A stream like [sample.cut] whose second header is followed by the
    end of the stream in the middle of the payload, and one that ends
    cleanly after the same entries. *)
Definition short : tar.Stream :=
  {| tar.entries := tar.entries sample.cut; tar.final := EOF |}.

End faulty.

(** ** archive/tar, header by header

    What Go's [tar.Writer] and [tar.Reader] make of a header between
    them, after [Header.allowedFormats], [Writer.WriteHeader],
    [writeUSTARHeader], [writePAXHeader] and [Reader.next], for two kinds
    of header: the header of a file or of a directory whose fields fit a
    USTAR header block, the name apart, and a PAX global header without
    records and without a name.  A time is in whole seconds since the
    epoch, [0] being a time that is not set. *)

Module gotar.

Definition FormatUSTAR : Z := 2.
Definition FormatPAX : Z := 4.

Definition TypeXGlobalHeader : ascii := "g"%char.

Definition paxPath : string := "path".

Definition nameSize : nat := 100.

(** [hasNUL]. *)
Fixpoint hasNUL (s : string) : bool :=
  match s with
  | EmptyString => false
  | String c t => (byte_val c =? 0) || hasNUL t
  end.

(** [isASCII]: an ASCII C-style string has no byte above 0x7f and no
    NUL. *)
Definition isASCII (s : string) : bool := allASCII s && negb (hasNUL s).

(** [fitsInOctal(n, x)]: [x] can be written in [n - 1] octal digits. *)
Definition fitsInOctal (n x : Z) : bool :=
  (0 <=? x) && ((22 <=? n) || (x <? Z.shiftl 1 ((n - 1) * 3))).

(** [strings.HasSuffix(s, "/")]. *)
Definition hasTrailingSlash (s : string) : bool :=
  match String.length s with
  | O => false
  | S k => filepath.IsPathSeparator (at_ s k)
  end.

(** [recs[k]] with its [ok]. *)
Fixpoint lookup (k : string) (recs : list (string * string)) : option string :=
  match recs with
  | [] => None
  | (k', v) :: recs' => if String.eqb k' k then Some v else lookup k recs'
  end.

(** The records are none, or a [path] record alone: what a reader
    delivers for an entry that needed an extended header for its name
    only. *)
Definition pathOnly (recs : list (string * string)) : bool :=
  match recs with
  | [] => true
  | [(k, v)] =>
      String.eqb k paxPath && negb (String.eqb v EmptyString)
      && negb (hasNUL v)
  | _ => false
  end.

(** [v, ok := h.PAXRecords[paxPath]; ok && v == h.Name]. *)
Definition pathIsName (h : tar.Header) : bool :=
  match lookup paxPath (tar.PAXRecords h) with
  | Some v => String.eqb v (tar.Name h)
  | None => false
  end.

(** A file or a directory that USTAR can encode but for its name: the
    name has at most [nameSize] bytes and no NUL, and may hold bytes
    above 0x7f; a file has no ['/'] at the end of its name, a directory
    has the size 0; there is no link name and no device number; the user
    and group names are ASCII and fit their 32 bytes; the numbers fit
    their octal fields; the modification time is set; the access and
    change times are not; there are no extended attributes, and no PAX
    record but [path].  The format asked for is PAX, or USTAR for an
    ASCII name without records. *)
Definition plain (h : tar.Header) : bool :=
  ((Ascii.eqb (tar.Typeflag h) tar.TypeReg
    && negb (hasTrailingSlash (tar.Name h)))
   || (Ascii.eqb (tar.Typeflag h) tar.TypeDir && (tar.Size h =? 0)))
  && negb (hasNUL (tar.Name h))
  && (String.length (tar.Name h) <=? nameSize)%nat
  && String.eqb (tar.Linkname h) EmptyString
  && isASCII (tar.Uname h) && (String.length (tar.Uname h) <=? 32)%nat
  && isASCII (tar.Gname h) && (String.length (tar.Gname h) <=? 32)%nat
  && fitsInOctal 8 (tar.Mode h)
  && fitsInOctal 8 (tar.Uid h)
  && fitsInOctal 8 (tar.Gid h)
  && fitsInOctal 12 (tar.Size h)
  && (tar.Devmajor h =? 0) && (tar.Devminor h =? 0)
  && (0 <? tar.ModTime h) && fitsInOctal 12 (tar.ModTime h)
  && (tar.AccessTime h =? 0) && (tar.ChangeTime h =? 0)
  && match tar.Xattrs h with [] => true | _ :: _ => false end
  && pathOnly (tar.PAXRecords h)
  && ((tar.Format h =? FormatPAX)
      || ((tar.Format h =? FormatUSTAR) && allASCII (tar.Name h)
          && match tar.PAXRecords h with [] => true | _ :: _ => false end)).

(** The header of a plain entry as it is read back.  The writer puts
    the name in a [path] record when it is not ASCII or when
    [h.PAXRecords] holds it under [path]; every other [path] record is
    dropped.  With a record the entry is written, and read back, as PAX;
    without one it is written as USTAR, whatever format was asked
    for. *)
Definition plain_reread (h : tar.Header) : tar.Header :=
  let pax := negb (isASCII (tar.Name h)) || pathIsName h in
  {| tar.Typeflag := tar.Typeflag h;
     tar.Name := tar.Name h;
     tar.Linkname := tar.Linkname h;
     tar.Size := tar.Size h;
     tar.Mode := tar.Mode h;
     tar.Uid := tar.Uid h;
     tar.Gid := tar.Gid h;
     tar.Uname := tar.Uname h;
     tar.Gname := tar.Gname h;
     tar.ModTime := tar.ModTime h;
     tar.AccessTime := tar.AccessTime h;
     tar.ChangeTime := tar.ChangeTime h;
     tar.Devmajor := tar.Devmajor h;
     tar.Devminor := tar.Devminor h;
     tar.Xattrs := tar.Xattrs h;
     tar.PAXRecords := if pax then [(paxPath, tar.Name h)] else [];
     tar.Format := if pax then FormatPAX else FormatUSTAR |}.

(** A PAX global header that has its type and its format and nothing
    else, not even a name. *)
Definition nameless_global (h : tar.Header) : bool :=
  Ascii.eqb (tar.Typeflag h) TypeXGlobalHeader
  && String.eqb (tar.Name h) EmptyString
  && String.eqb (tar.Linkname h) EmptyString
  && (tar.Size h =? 0) && (tar.Mode h =? 0)
  && (tar.Uid h =? 0) && (tar.Gid h =? 0)
  && String.eqb (tar.Uname h) EmptyString
  && String.eqb (tar.Gname h) EmptyString
  && (tar.ModTime h =? 0) && (tar.AccessTime h =? 0)
  && (tar.ChangeTime h =? 0)
  && (tar.Devmajor h =? 0) && (tar.Devminor h =? 0)
  && match tar.Xattrs h with [] => true | _ :: _ => false end
  && match tar.PAXRecords h with [] => true | _ :: _ => false end
  && (tar.Format h =? FormatPAX).

(** [writePAXHeader] on a global header:
    [name = realName; if name is empty, name = GlobalHead.0.0]. *)
Definition globalName (realName : string) : string :=
  if String.eqb realName EmptyString then "GlobalHead.0.0" else realName.

(** The header [Next] gives back for an entry that [WriteHeader] wrote
    from [h], where this development follows the library. *)
Definition decoded (h : tar.Header) : option tar.Header :=
  if nameless_global h then Some (tar.set_Name h (globalName (tar.Name h)))
  else if plain h then Some (plain_reread h)
  else None.

(** The same as a function of every header, for [tar.stream_of]: a
    header outside the two kinds stands for itself. *)
Definition reread (h : tar.Header) : tar.Header :=
  match decoded h with
  | Some h' => h'
  | None => h
  end.

End gotar.

(** ** Sample archives with PAX headers *)

Module pax.

(** A PAX global header without records, as a [tar.Reader] returns it:
    the name, the type and the format are set. *)
Definition global (name : string) : tar.Header :=
  {| tar.Typeflag := gotar.TypeXGlobalHeader;
     tar.Name := name;
     tar.Linkname := "";
     tar.Size := 0;
     tar.Mode := 0;
     tar.Uid := 0;
     tar.Gid := 0;
     tar.Uname := "";
     tar.Gname := "";
     tar.ModTime := 0;
     tar.AccessTime := 0;
     tar.ChangeTime := 0;
     tar.Devmajor := 0;
     tar.Devminor := 0;
     tar.Xattrs := [];
     tar.PAXRecords := [];
     tar.Format := gotar.FormatPAX |}.

(** An archive of [/srv/logs] that begins and ends with a global header
    named [logs]. *)
Definition globals : tar.Stream :=
  {| tar.entries :=
       [ {| tar.hdr := global "logs"; tar.data := []; tar.dataEnd := EOF |} ];
     tar.final := EOF |}.

(** The header of a file whose name is not ASCII, as a [tar.Reader]
    returns it from a PAX archive: the name is also the [path]
    record. *)
Definition recorded (name : string) (size : Z) : tar.Header :=
  {| tar.Typeflag := tar.TypeReg;
     tar.Name := name;
     tar.Linkname := "";
     tar.Size := size;
     tar.Mode := 420;
     tar.Uid := 0;
     tar.Gid := 0;
     tar.Uname := "root";
     tar.Gname := "root";
     tar.ModTime := 1600000000;
     tar.AccessTime := 0;
     tar.ChangeTime := 0;
     tar.Devmajor := 0;
     tar.Devminor := 0;
     tar.Xattrs := [];
     tar.PAXRecords := [(gotar.paxPath, name)];
     tar.Format := gotar.FormatPAX |}.

(** U+00E9, two bytes. *)
Definition e_acute : string := utf8.EncodeRune 0xE9.

(** The directory [/data/logs] with one file, [e_acute.log], of three
    bytes. *)
Definition accents : tar.Stream :=
  {| tar.entries :=
       [ sample.entry tar.TypeDir "logs/" [];
         {| tar.hdr := recorded ("logs/" ++ e_acute ++ ".log") 3;
            tar.data := repeat Byte.x61 3;
            tar.dataEnd := EOF |} ];
     tar.final := EOF |}.

(** The directory [/data/e_acute] with one file, [a.log], of three
    bytes: the names in the archive are not ASCII, the names after the
    trim are. *)
Definition accented : tar.Stream :=
  {| tar.entries :=
       [ {| tar.hdr := recorded (e_acute ++ "/a.log") 3;
            tar.data := repeat Byte.x61 3;
            tar.dataEnd := EOF |} ];
     tar.final := EOF |}.

(** The container [web1] with these three directories. *)
Definition daemon : docker.Daemon :=
  {| docker.inspect := docker.inspect sample.daemon;
     docker.start := docker.start sample.daemon;
     docker.stop := docker.stop sample.daemon;
     docker.remove := docker.remove sample.daemon;
     docker.copy := fun _ name path =>
       if String.eqb name "web1" then
         if String.eqb path "/data/logs" then inl accents
         else if String.eqb path "/srv/logs" then inl globals
         else if String.eqb path ("/data/" ++ e_acute) then inl accented
         else inr (sample.noSuchPath name path)
       else inr (sample.noSuchPath name path) |}.

End pax.

(** * Proofs *)

(** ** Bytes *)

Lemma byte_val_range (c : ascii) : 0 <= byte_val c < 256.
Proof.
  unfold byte_val. pose proof (N_ascii_bounded c). lia.
Qed.

Lemma byte_of_val (c : ascii) : byte_of (byte_val c) = c.
Proof.
  unfold byte_of, byte_val. rewrite N2Z.id. apply ascii_N_embedding.
Qed.

Lemma byte_val_of (x : Z) : 0 <= x < 256 -> byte_val (byte_of x) = x.
Proof.
  intros Hx. unfold byte_of, byte_val.
  rewrite N_ascii_embedding by lia. lia.
Qed.

Lemma at_head (b : ascii) (t : string) : at_ (String b t) 0 = byte_val b.
Proof. reflexivity. Qed.

Lemma at_range (s : string) (i : nat) : 0 <= at_ s i < 256.
Proof.
  unfold at_. destruct (String.get i s).
  - apply byte_val_range.
  - lia.
Qed.

Lemma length_drop (n : nat) (s : string) :
  String.length (drop n s) = (String.length s - n)%nat.
Proof.
  revert s. induction n as [|n IH]; intros s.
  - simpl. lia.
  - destruct s as [|c t]; simpl; [reflexivity | apply IH].
Qed.

Lemma lor_ge_r (a b : Z) : 0 <= a -> b <= Z.lor a b.
Proof.
  intros Ha. pose proof (Z.sub_lor_l_same_r a b) as H.
  assert (0 <= Z.land a (Z.lnot b)) by (apply Z.land_nonneg; auto).
  lia.
Qed.

Lemma lor_ge_l (a b : Z) : 0 <= b -> a <= Z.lor a b.
Proof. intros Hb. rewrite Z.lor_comm. now apply lor_ge_r. Qed.

Lemma land_mask_nonneg (a m : Z) : 0 <= m -> 0 <= Z.land a m.
Proof. intros Hm. apply Z.land_nonneg. now right. Qed.

(** ** The decoder *)

Lemma first_cases (b : Z) :
  (utf8.first b = utf8.as_ /\ b < 0x80)
  \/ utf8.first b = utf8.xx
  \/ (utf8.first b = utf8.s1 /\ 0xC2 <= b < 0xE0)
  \/ (utf8.first b = utf8.s2 /\ b = 0xE0)
  \/ (utf8.first b = utf8.s3 /\ 0xE1 <= b < 0xF0)
  \/ (utf8.first b = utf8.s4 /\ b = 0xED)
  \/ (utf8.first b = utf8.s5 /\ b = 0xF0)
  \/ (utf8.first b = utf8.s6 /\ 0xF1 <= b < 0xF4)
  \/ (utf8.first b = utf8.s7 /\ b = 0xF4).
Proof.
  unfold utf8.first.
  repeat match goal with
         | |- context [if ?c then _ else _] => destruct c eqn:?
         end; lia || (intuition lia).
Qed.

(** A byte below [RuneSelf] is its own rune. *)
Lemma decode_ascii (b : ascii) (t : string) :
  byte_val b < utf8.RuneSelf ->
  utf8.DecodeRuneInString (String b t) = (byte_val b, 1%nat).
Proof.
  intros Hb. unfold utf8.DecodeRuneInString.
  cbn [String.length Nat.ltb Nat.leb]. rewrite at_head.
  unfold utf8.RuneSelf in Hb.
  unfold utf8.first. replace (byte_val b <? 128) with true by lia.
  reflexivity.
Qed.

Ltac split_ifs :=
  repeat match goal with
         | |- context [if ?c then _ else _] => destruct c eqn:?
         end.

Ltac first_case b :=
  let Hf := fresh "Hf" in
  pose proof (first_cases b) as Hf;
  repeat (destruct Hf as [Hf | Hf]);
  match type of Hf with
  | _ /\ _ => let H1 := fresh "Hf" in destruct Hf as [H1 ?]; rewrite H1
  | _ = _ => rewrite Hf
  end.

(** After [first_case]: the entries of the tables are evaluated. *)
Ltac eval_tables :=
  repeat match goal with
  | |- context [Z.to_nat (Z.land ?x 7)] =>
      let v := eval vm_compute in (Z.to_nat (Z.land x 7)) in
      change (Z.to_nat (Z.land x 7)) with v
  | |- context [utf8.acceptRanges (Z.shiftr ?x 4)] =>
      let v := eval vm_compute in (utf8.acceptRanges (Z.shiftr x 4)) in
      change (utf8.acceptRanges (Z.shiftr x 4)) with v
  | |- context [utf8.as_ <=? ?x] =>
      let v := eval vm_compute in (utf8.as_ <=? x) in
      change (utf8.as_ <=? x) with v
  | |- context [Z.testbit ?x 0] =>
      let v := eval vm_compute in (Z.testbit x 0) in
      change (Z.testbit x 0) with v
  end;
  cbn [fst snd Nat.leb Nat.ltb].

(** The width of a decoded rune: at least one byte, never more than the
    string holds. *)
Lemma decode_width (b : ascii) (t : string) :
  (1 <= snd (utf8.DecodeRuneInString (String b t))
     <= String.length (String b t))%nat.
Proof.
  unfold utf8.DecodeRuneInString.
  change (String.length (String b t) <? 1)%nat with false. cbv iota.
  rewrite at_head.
  set (n := String.length (String b t)).
  assert (Hn : (1 <= n)%nat) by (subst n; simpl; lia).
  first_case (byte_val b); eval_tables; split_ifs; cbn [snd]; lia.
Qed.

Lemma land_ones_mod (a k m : Z) :
  0 <= k -> m = Z.ones k -> Z.land a m = a mod 2 ^ k.
Proof. intros Hk ->. now apply Z.land_ones. Qed.

(** A byte from [RuneSelf] on never decodes to an ASCII rune. *)
Lemma decode_nonascii (b : ascii) (t : string) :
  utf8.RuneSelf <= byte_val b ->
  utf8.RuneSelf <= fst (utf8.DecodeRuneInString (String b t)).
Proof.
  intros Hb. unfold utf8.DecodeRuneInString.
  change (String.length (String b t) <? 1)%nat with false. cbv iota.
  rewrite at_head.
  pose proof (byte_val_range b) as Hr.
  pose proof (at_range (String b t) 1) as Hr1.
  pose proof (at_range (String b t) 2) as Hr2.
  pose proof (at_range (String b t) 3) as Hr3.
  set (z1 := at_ (String b t) 1) in *.
  set (z2 := at_ (String b t) 2) in *.
  set (z3 := at_ (String b t) 3) in *.
  set (z0 := byte_val b) in *.
  assert (H2 : Z.land z0 utf8.mask2 = z0 mod 2 ^ 5)
    by (apply land_ones_mod; [lia | reflexivity]).
  assert (H3 : Z.land z0 utf8.mask3 = z0 mod 2 ^ 4)
    by (apply land_ones_mod; [lia | reflexivity]).
  assert (H4 : Z.land z0 utf8.mask4 = z0 mod 2 ^ 3)
    by (apply land_ones_mod; [lia | reflexivity]).
  assert (Hx : Z.land z1 utf8.maskx = z1 mod 2 ^ 6)
    by (apply land_ones_mod; [lia | reflexivity]).
  unfold utf8.RuneSelf in *.
  first_case z0; eval_tables; split_ifs; cbn [fst];
    try (unfold utf8.RuneError; lia).
  all: rewrite ?H2, ?H3, ?H4, ?Hx, !Z.shiftl_mul_pow2 by lia.
  all: repeat match goal with
       | |- _ <= Z.lor _ (Z.land _ utf8.maskx) =>
           etransitivity; [| apply lor_ge_l, land_mask_nonneg; discriminate]
       | |- _ <= Z.lor _ (Z.land _ utf8.maskx * _) =>
           etransitivity;
           [| apply lor_ge_l, Z.mul_nonneg_nonneg;
              [apply land_mask_nonneg; discriminate | lia]]
       end.
  all: try (Z.to_euclidean_division_equations; lia).
  all: try (etransitivity;
            [| apply lor_ge_l; Z.to_euclidean_division_equations; lia];
            Z.to_euclidean_division_equations; lia).
  all: try (etransitivity;
            [| apply lor_ge_r; Z.to_euclidean_division_equations; lia];
            Z.to_euclidean_division_equations; lia).
Qed.

(** ** Membership in a cutset *)

Lemma indexByte_from_nonneg (s : string) (c : ascii) (i j : Z) :
  0 <= i -> 0 <= j ->
  (0 <=? strings.indexByte_from i s c) = (0 <=? strings.indexByte_from j s c).
Proof.
  revert i j. induction s as [|b t IH]; intros i j Hi Hj; simpl.
  - reflexivity.
  - destruct (Ascii.eqb b c).
    + lia.
    + apply IH; lia.
Qed.

Lemma IndexByte_cons (b : ascii) (t : string) (c : ascii) :
  (0 <=? strings.IndexByte (String b t) c)
  = Ascii.eqb b c || (0 <=? strings.IndexByte t c).
Proof.
  unfold strings.IndexByte. simpl. destruct (Ascii.eqb b c).
  - reflexivity.
  - simpl. apply indexByte_from_nonneg; lia.
Qed.

Lemma low_byte_val (c : ascii) : utf8.low_byte (byte_val c) = c.
Proof.
  unfold utf8.low_byte. pose proof (byte_val_range c) as Hc.
  rewrite (land_ones_mod _ 8) by (lia || reflexivity).
  rewrite Z.mod_small by lia. apply byte_of_val.
Qed.

(** On an ASCII rune [ContainsRune] is a search for the byte. *)
Lemma ContainsRune_ascii (cutset : string) (c : ascii) :
  byte_val c < utf8.RuneSelf ->
  strings.ContainsRune cutset (byte_val c)
  = (0 <=? strings.IndexByte cutset c).
Proof.
  intros Hc. unfold strings.ContainsRune, strings.IndexRune.
  pose proof (byte_val_range c).
  replace ((0 <=? byte_val c) && (byte_val c <? utf8.RuneSelf)) with true by lia.
  now rewrite low_byte_val.
Qed.

Lemma rangeRuneError_ascii (fuel : nat) (i : Z) (s : string) :
  allASCII s = true -> strings.rangeRuneError fuel i s = -1.
Proof.
  revert i s. induction fuel as [|fuel IH]; intros i s Hs.
  - reflexivity.
  - destruct s as [|b t]; [reflexivity|].
    simpl in Hs. apply andb_prop in Hs as [Hb Ht].
    cbn [strings.rangeRuneError]. rewrite decode_ascii by lia.
    unfold utf8.RuneSelf, utf8.RuneError in *.
    replace (byte_val b =? 65533) with false by lia.
    apply IH. exact Ht.
Qed.

(** The [range] loop has reached the end of the string after
    [String.length s] steps: more fuel changes nothing. *)
Lemma rangeRuneError_fuel (fuel : nat) (i : Z) (s : string) :
  (String.length s <= fuel)%nat ->
  strings.rangeRuneError fuel i s
  = strings.rangeRuneError (String.length s) i s.
Proof.
  remember (String.length s) as k eqn:Hk.
  assert (Hle : (String.length s <= k)%nat) by lia. clear Hk.
  revert fuel i s Hle. induction k as [|k IH]; intros fuel i s Hle Hf.
  - destruct s; [|simpl in Hle; lia]. destruct fuel; reflexivity.
  - destruct fuel as [|fuel]; [lia|].
    destruct s as [|b t]; [reflexivity|].
    cbn [strings.rangeRuneError].
    pose proof (decode_width b t) as Hw.
    destruct (utf8.DecodeRuneInString (String b t)) as [r n].
    cbn [snd] in Hw.
    destruct (r =? utf8.RuneError); [reflexivity|].
    apply IH; [rewrite length_drop; simpl String.length in *; lia | lia].
Qed.

Lemma index_from_high_byte (s : string) (c0 : ascii) (sub : string) (i : Z) :
  allASCII s = true -> utf8.RuneSelf <= byte_val c0 ->
  strings.index_from i s (String c0 sub) = -1.
Proof.
  intros Hs Hc. revert i. induction s as [|b t IH]; intros i.
  - reflexivity.
  - simpl in Hs. apply andb_prop in Hs as [Hb Ht].
    cbn [strings.index_from strings.HasPrefix String.prefix].
    destruct (ascii_dec c0 b) as [ -> | _ ]; [lia | ].
    now apply IH.
Qed.

Lemma lead_byte_high (t : Z) (c : ascii) :
  t = utf8.t2 \/ t = utf8.t3 \/ t = utf8.t4 ->
  utf8.RuneSelf <= byte_val (byte_of (Z.lor t (byte_val c))).
Proof.
  intros [ -> | [ -> | -> ] ];
    destruct c as [[] [] [] [] [] [] [] []]; vm_compute; discriminate.
Qed.

(** The encoding of a rune from [RuneSelf] on starts with a byte from
    [RuneSelf] on. *)
Lemma EncodeRune_high (r : Z) :
  utf8.RuneSelf <= r ->
  exists c0 sub,
    utf8.EncodeRune r = String c0 sub /\ utf8.RuneSelf <= byte_val c0.
Proof.
  intros Hr. unfold utf8.EncodeRune, utf8.encode3.
  unfold utf8.RuneSelf, utf8.rune1Max in *.
  replace ((0 <=? r) && (r <=? 127)) with false by lia.
  split_ifs; eexists; eexists; (split; [reflexivity|]);
    apply lead_byte_high; auto.
Qed.

(** A cutset of ASCII bytes holds no rune from [RuneSelf] on. *)
Lemma ContainsRune_ascii_cutset (cutset : string) (r : Z) :
  allASCII cutset = true -> utf8.RuneSelf <= r ->
  strings.ContainsRune cutset r = false.
Proof.
  intros Hc Hr. unfold strings.ContainsRune, strings.IndexRune.
  replace ((0 <=? r) && (r <? utf8.RuneSelf)) with false by lia.
  destruct (r =? utf8.RuneError).
  - now rewrite rangeRuneError_ascii.
  - destruct (negb (utf8.ValidRune r)); [reflexivity|].
    destruct (EncodeRune_high r Hr) as (c0 & sub & -> & Hc0).
    unfold strings.Index. now rewrite index_from_high_byte.
Qed.

(** ** The ASCII bit set *)

Lemma asciiSet_contains_testbit (as_ : strings.asciiSet) (c : ascii) :
  strings.asciiSet_contains as_ c = Z.testbit as_ (byte_val c).
Proof.
  unfold strings.asciiSet_contains.
  pose proof (byte_val_range c) as Hc.
  rewrite Z.shiftl_1_l.
  destruct (Z.testbit as_ (byte_val c)) eqn:Hb.
  - destruct (Z.land as_ (2 ^ byte_val c) =? 0) eqn:Hz; [|reflexivity].
    apply Z.eqb_eq in Hz.
    assert (Ht : Z.testbit (Z.land as_ (2 ^ byte_val c)) (byte_val c) = true)
      by (rewrite Z.land_spec, Hb, Z.pow2_bits_true by lia; reflexivity).
    rewrite Hz, Z.bits_0 in Ht. discriminate Ht.
  - replace (Z.land as_ (2 ^ byte_val c)) with 0; [reflexivity|].
    symmetry. apply Z.bits_inj'. intros n Hn.
    rewrite Z.land_spec, Z.bits_0, Z.pow2_bits_eqb by lia.
    destruct (byte_val c =? n) eqn:He.
    + apply Z.eqb_eq in He. subst n. rewrite Hb. reflexivity.
    + apply andb_false_r.
Qed.

Lemma asciiSet_contains_add (as_ : strings.asciiSet) (b c : ascii) :
  strings.asciiSet_contains (Z.lor as_ (Z.shiftl 1 (byte_val b))) c
  = strings.asciiSet_contains as_ c || Ascii.eqb b c.
Proof.
  rewrite !asciiSet_contains_testbit.
  pose proof (byte_val_range b) as Hb. pose proof (byte_val_range c) as Hc.
  rewrite Z.lor_spec, Z.shiftl_1_l, Z.pow2_bits_eqb by lia.
  f_equal. destruct (Ascii.eqb_spec b c) as [->|Hne].
  - apply Z.eqb_refl.
  - apply Z.eqb_neq. intros He. apply Hne.
    rewrite <- (byte_of_val b), <- (byte_of_val c). now rewrite He.
Qed.

(** [makeASCIISet] succeeds exactly on ASCII cutsets, and the set then
    holds the bytes of the cutset. *)
Lemma makeASCIISet_from_spec (chars : string) (as_ : strings.asciiSet) :
  snd (strings.makeASCIISet_from as_ chars) = allASCII chars
  /\ (allASCII chars = true ->
      forall c,
        strings.asciiSet_contains (fst (strings.makeASCIISet_from as_ chars)) c
        = strings.asciiSet_contains as_ c
          || (0 <=? strings.IndexByte chars c)).
Proof.
  revert as_. induction chars as [|b t IH]; intros as_.
  - split; [reflexivity|]. intros _ c. simpl. now rewrite orb_false_r.
  - cbn [strings.makeASCIISet_from allASCII].
    destruct (utf8.RuneSelf <=? byte_val b) eqn:Hb.
    + replace (byte_val b <? utf8.RuneSelf) with false by lia.
      split; [reflexivity | discriminate].
    + replace (byte_val b <? utf8.RuneSelf) with true by lia.
      destruct (IH (Z.lor as_ (Z.shiftl 1 (byte_val b)))) as [IH1 IH2].
      split; [exact IH1|]. intros Ht c.
      rewrite IH2, asciiSet_contains_add, IndexByte_cons by exact Ht.
      now rewrite orb_assoc.
Qed.

Lemma makeASCIISet_ok (cutset : string) :
  snd (strings.makeASCIISet cutset) = allASCII cutset.
Proof. apply makeASCIISet_from_spec. Qed.

Lemma makeASCIISet_contains (cutset : string) (c : ascii) :
  allASCII cutset = true ->
  strings.asciiSet_contains (fst (strings.makeASCIISet cutset)) c
  = (0 <=? strings.IndexByte cutset c).
Proof.
  intros Hc. unfold strings.makeASCIISet.
  destruct (makeASCIISet_from_spec cutset 0) as [_ H].
  rewrite H by exact Hc. rewrite asciiSet_contains_testbit, Z.bits_0.
  reflexivity.
Qed.

(** ** [strings.TrimLeft] removes the longest leading run *)

(** The first character of a string whose first byte [b] is compared
    with an ASCII cutset: it is in the cutset exactly when the byte is,
    and then it is that byte, one byte wide. *)
Lemma first_rune_ascii_cutset (cutset : string) (b : ascii) (t : string) :
  allASCII cutset = true ->
  strings.ContainsRune cutset (fst (utf8.DecodeRuneInString (String b t)))
  = (0 <=? strings.IndexByte cutset b)
  /\ ((0 <=? strings.IndexByte cutset b) = true ->
      utf8.DecodeRuneInString (String b t) = (byte_val b, 1%nat)).
Proof.
  intros Hc.
  assert (Hin : forall s c i,
             allASCII s = true -> utf8.RuneSelf <= byte_val c ->
             strings.indexByte_from i s c = -1).
  { induction s as [|a s IH]; intros c i Hs Hb; simpl; [reflexivity|].
    simpl in Hs. apply andb_prop in Hs as [Ha Hs].
    destruct (Ascii.eqb_spec a c) as [->|_]; [lia|]. now apply IH. }
  destruct (Z.ltb_spec (byte_val b) utf8.RuneSelf) as [Hb|Hb].
  - rewrite decode_ascii by exact Hb. cbn [fst].
    split; [now apply ContainsRune_ascii | reflexivity].
  - rewrite ContainsRune_ascii_cutset
      by (try apply decode_nonascii; assumption).
    unfold strings.IndexByte. rewrite Hin by assumption.
    split; [reflexivity | discriminate].
Qed.

Lemma trimLeftASCII_spec (cutset : string) (as_ : strings.asciiSet) (s : string) :
  allASCII cutset = true ->
  (forall c, strings.asciiSet_contains as_ c
             = (0 <=? strings.IndexByte cutset c)) ->
  TrimmedLeft (strings.ContainsRune cutset) s (strings.trimLeftASCII s as_).
Proof.
  intros Hc Has. induction s as [|b t IH].
  - split; [apply run_stop | now left].
  - cbn [strings.trimLeftASCII]. rewrite Has.
    destruct (first_rune_ascii_cutset cutset b t Hc) as [Hin Hdec].
    destruct (0 <=? strings.IndexByte cutset b) eqn:Hb.
    + destruct IH as [IH1 IH2]. split; [|exact IH2].
      apply run_step with (r := byte_val b) (n := 1%nat).
      * discriminate.
      * now apply Hdec.
      * rewrite Hdec in Hin by reflexivity. exact Hin.
      * exact IH1.
    + split; [apply run_stop | right; exact Hin].
Qed.

Lemma trimLeftByte_spec (c : ascii) (s : string) :
  byte_val c < utf8.RuneSelf ->
  TrimmedLeft (strings.ContainsRune (String c "")) s
    (strings.trimLeftByte s c).
Proof.
  intros Hc.
  assert (Hcut : allASCII (String c "") = true)
    by (simpl; rewrite andb_true_r; lia).
  assert (Hmem : forall b, (0 <=? strings.IndexByte (String c "") b)
                           = Ascii.eqb b c).
  { intros b. rewrite IndexByte_cons. cbn. rewrite orb_false_r.
    apply Ascii.eqb_sym. }
  induction s as [|b t IH].
  - split; [apply run_stop | now left].
  - cbn [strings.trimLeftByte].
    destruct (first_rune_ascii_cutset (String c "") b t Hcut) as [Hin Hdec].
    rewrite Hmem in Hin, Hdec.
    destruct (Ascii.eqb b c) eqn:Hb.
    + destruct IH as [IH1 IH2]. split; [|exact IH2].
      apply run_step with (r := byte_val b) (n := 1%nat).
      * discriminate.
      * now apply Hdec.
      * rewrite Hdec in Hin by reflexivity. exact Hin.
      * exact IH1.
    + split; [apply run_stop | right; exact Hin].
Qed.

Lemma trimLeftUnicode_loop_spec (cutset : string) (fuel : nat) (s : string) :
  (String.length s <= fuel)%nat ->
  TrimmedLeft (strings.ContainsRune cutset) s
    (strings.trimLeftUnicode_loop fuel s cutset).
Proof.
  revert s. induction fuel as [|fuel IH]; intros s Hlen.
  - destruct s; [|simpl in Hlen; lia].
    split; [apply run_stop | now left].
  - destruct s as [|b t].
    + split; [apply run_stop | now left].
    + cbn [strings.trimLeftUnicode_loop].
      assert (Hdec :
                (if utf8.RuneSelf <=? byte_val b
                 then utf8.DecodeRuneInString (String b t)
                 else (byte_val b, 1%nat))
                = utf8.DecodeRuneInString (String b t)).
      { destruct (utf8.RuneSelf <=? byte_val b) eqn:Hb; [reflexivity|].
        symmetry. apply decode_ascii. lia. }
      rewrite Hdec.
      pose proof (decode_width b t) as Hw.
      destruct (utf8.DecodeRuneInString (String b t)) as [r n] eqn:Hrn.
      cbn [snd] in Hw.
      destruct (strings.ContainsRune cutset r) eqn:Hin; cbn [negb].
      * assert (Hfuel : (String.length (drop n (String b t)) <= fuel)%nat).
        { rewrite length_drop. simpl String.length in *. lia. }
        destruct (IH _ Hfuel) as [IH1 IH2]. split; [|exact IH2].
        apply run_step with (r := r) (n := n); auto. discriminate.
      * split; [apply run_stop|]. right. now rewrite Hrn.
Qed.

(** The loop has run to its end once it was given [String.length s]
    iterations: more fuel changes nothing. *)
Lemma trimLeftUnicode_fuel (cutset : string) (fuel : nat) (s : string) :
  (String.length s <= fuel)%nat ->
  strings.trimLeftUnicode_loop fuel s cutset = strings.trimLeftUnicode s cutset.
Proof.
  unfold strings.trimLeftUnicode.
  remember (String.length s) as k eqn:Hk.
  assert (Hle : (String.length s <= k)%nat) by lia. clear Hk.
  revert fuel s Hle. induction k as [|k IH]; intros fuel s Hle Hf.
  - destruct s; [|simpl in Hle; lia]. destruct fuel; reflexivity.
  - destruct fuel as [|fuel]; [lia|].
    destruct s as [|b t]; [reflexivity|].
    cbn [strings.trimLeftUnicode_loop].
    pose proof (decode_width b t) as Hw.
    assert (Hn : (1 <= snd (if (utf8.RuneSelf <=? byte_val b)%Z
                            then utf8.DecodeRuneInString (String b t)
                            else (byte_val b, 1%nat)))%nat).
    { destruct (utf8.RuneSelf <=? byte_val b); [apply Hw | simpl; lia]. }
    destruct (if utf8.RuneSelf <=? byte_val b
              then utf8.DecodeRuneInString (String b t)
              else (byte_val b, 1%nat)) as [r n].
    cbn [snd] in Hn.
    destruct (negb (strings.ContainsRune cutset r)); [reflexivity|].
    apply IH; [rewrite length_drop; simpl String.length in *; lia | lia].
Qed.

Lemma ContainsRune_empty (r : Z) : strings.ContainsRune "" r = false.
Proof.
  unfold strings.ContainsRune, strings.IndexRune.
  split_ifs; try reflexivity.
  unfold utf8.EncodeRune, utf8.encode3. split_ifs; reflexivity.
Qed.

(** The specification of [strings.TrimLeft]. *)
Lemma TrimLeft_spec (s cutset : string) :
  TrimmedLeft (strings.ContainsRune cutset) s (strings.TrimLeft s cutset).
Proof.
  unfold strings.TrimLeft.
  destruct s as [|b t].
  { split; [apply run_stop | now left]. }
  destruct cutset as [|c cs].
  { split; [apply run_stop | right; apply ContainsRune_empty]. }
  cbn [String.length Nat.eqb orb].
  destruct cs as [|c' cs'].
  - cbn [String.length Nat.eqb andb]. rewrite at_head, byte_of_val.
    destruct (byte_val c <? utf8.RuneSelf) eqn:Hc.
    + apply trimLeftByte_spec. lia.
    + pose proof (makeASCIISet_ok (String c "")) as Hok.
      destruct (strings.makeASCIISet (String c "")) as [as_ ok].
      cbn [snd] in Hok. simpl in Hok. rewrite Hc in Hok. subst ok.
      apply trimLeftUnicode_loop_spec. lia.
  - cbn [String.length Nat.eqb andb].
    pose proof (makeASCIISet_ok (String c (String c' cs'))) as Hok.
    pose proof (makeASCIISet_contains (String c (String c' cs'))) as Hin.
    destruct (strings.makeASCIISet (String c (String c' cs'))) as [as_ ok].
    cbn [fst snd] in Hok, Hin. destruct ok.
    + apply trimLeftASCII_spec; auto.
    + apply trimLeftUnicode_loop_spec. lia.
Qed.

(** The longest leading run is unique. *)
Lemma TrimmedLeft_unique (inset : Z -> bool) (s out1 out2 : string) :
  TrimmedLeft inset s out1 -> TrimmedLeft inset s out2 -> out1 = out2.
Proof.
  intros [H1 S1] [H2 S2]. revert out2 H2 S2.
  induction H1 as [s|s r n out Hs Hd Hin H1 IH]; intros out2 H2 S2.
  - destruct H2 as [s|s r n out2 Hs Hd Hin H2]; [reflexivity|].
    destruct S1 as [->|S1]; [congruence|].
    rewrite Hd in S1. cbn [fst] in S1. congruence.
  - destruct H2 as [s|s r' n' out2 Hs' Hd' Hin' H2].
    + destruct S2 as [->|S2]; [congruence|].
      rewrite Hd in S2. cbn [fst] in S2. congruence.
    + rewrite Hd in Hd'. injection Hd' as <- <-. now apply IH.
Qed.

(** What [LeadingRun] removes is a prefix. *)
Lemma LeadingRun_suffix (inset : Z -> bool) (s out : string) :
  LeadingRun inset s out -> exists pre, s = pre ++ out.
Proof.
  assert (Hdrop : forall n s, exists pre, s = pre ++ drop n s).
  { induction n as [|n IH]; intros t.
    - now exists "".
    - destruct t as [|c t]; [now exists ""|].
      destruct (IH t) as [pre Hp]. exists (String c pre).
      simpl. now rewrite <- Hp. }
  induction 1 as [s|s r n out _ _ _ _ [pre Hp]].
  - now exists "".
  - destruct (Hdrop n s) as [pre0 Hp0]. exists (pre0 ++ pre).
    rewrite Hp0 at 1. rewrite Hp.
    clear. induction pre0 as [|c p IH]; simpl; [reflexivity | now rewrite IH].
Qed.

(** A string that starts outside the cutset is left alone. *)
Lemma TrimLeft_fixed (s cutset : string) :
  StartsOutside (strings.ContainsRune cutset) s ->
  strings.TrimLeft s cutset = s.
Proof.
  intros Hs.
  apply TrimmedLeft_unique with (inset := strings.ContainsRune cutset) (s := s).
  - apply TrimLeft_spec.
  - split; [apply run_stop | exact Hs].
Qed.

Lemma TrimLeft_idempotent (s cutset : string) :
  strings.TrimLeft (strings.TrimLeft s cutset) cutset
  = strings.TrimLeft s cutset.
Proof. apply TrimLeft_fixed, TrimLeft_spec. Qed.

(** ** The cutset [base ++ "/"] *)

Lemma append_length (a b : string) :
  String.length (a ++ b) = (String.length a + String.length b)%nat.
Proof. induction a as [|c a IH]; simpl; [reflexivity | now rewrite IH]. Qed.

Lemma drop_append (n : nat) (a b : string) :
  (n <= String.length a)%nat -> drop n (a ++ b) = drop n a ++ b.
Proof.
  revert a. induction n as [|n IH]; intros a Hn; [reflexivity|].
  destruct a as [|c a]; simpl in *; [lia | apply IH; lia].
Qed.

(** Decoding does not see a ['/'] put behind the string: inside a
    sequence it is no continuation byte, so a sequence cut short by the
    end of the string stays invalid. *)
Lemma decode_append_slash (b : ascii) (t : string) :
  utf8.DecodeRuneInString (String b t ++ "/")
  = utf8.DecodeRuneInString (String b t).
Proof.
  unfold utf8.DecodeRuneInString.
  change ((String b t ++ "/")%string) with (String b (t ++ "/")).
  change (String.length (String b (t ++ "/")) <? 1)%nat with false.
  change (String.length (String b t) <? 1)%nat with false.
  cbv iota. rewrite !at_head.
  destruct t as [|b1 [|b2 [|b3 t]]];
    cbn [String.append String.length at_ String.get];
    try pose proof (byte_val_range b1) as H1;
    try pose proof (byte_val_range b2) as H2;
    try pose proof (byte_val_range b3) as H3;
    change (byte_val "/") with 47;
    first_case (byte_val b); eval_tables;
    unfold utf8.locb, utf8.hicb;
    repeat match goal with
           | |- context [(?a <? ?b)%nat] =>
               let v := eval vm_compute in (a <? b)%nat in
               change (a <? b)%nat with v
           | |- context [(?a <? ?b) || (?c <? ?d)] =>
               destruct ((a <? b) || (c <? d)) eqn:?
           end;
    try reflexivity; try lia.
Qed.

Lemma rangeRuneError_append_slash (fuel2 fuel1 : nat) (s : string) (i : Z) :
  (String.length s < fuel1)%nat -> (String.length s <= fuel2)%nat ->
  0 <= i ->
  (0 <=? strings.rangeRuneError fuel1 i (s ++ "/"))
  = (0 <=? strings.rangeRuneError fuel2 i s).
Proof.
  assert (Hend : forall f j, strings.rangeRuneError f j "/" = -1).
  { intros [|[|f]] j; reflexivity. }
  revert fuel1 s i. induction fuel2 as [|fuel2 IH]; intros fuel1 s i H1 H2 Hi.
  - destruct s; [|simpl in H2; lia]. cbn [String.append].
    now rewrite Hend.
  - destruct s as [|b t].
    + cbn [String.append]. now rewrite Hend.
    + destruct fuel1 as [|fuel1]; [lia|].
      cbn [strings.rangeRuneError].
      change ((String b t ++ "/")%string) with (String b (t ++ "/")).
      cbv iota.
      change (String b (t ++ "/")) with ((String b t ++ "/")%string).
      rewrite decode_append_slash.
      pose proof (decode_width b t) as Hw.
      destruct (utf8.DecodeRuneInString (String b t)) as [r n].
      cbn [snd] in Hw.
      destruct (r =? utf8.RuneError); [reflexivity|].
      rewrite drop_append by lia.
      apply IH; rewrite ?length_drop; simpl String.length in *; lia.
Qed.

Lemma prefix_append_slash (enc s : string) :
  Forall (fun c => utf8.RuneSelf <= byte_val c) (list_ascii_of_string enc) ->
  String.prefix enc (s ++ "/") = String.prefix enc s.
Proof.
  revert enc. induction s as [|b t IH]; intros enc Henc.
  - destruct enc as [|c0 rest]; [reflexivity|].
    cbn. inversion Henc as [|? ? Hc _]; subst.
    destruct (ascii_dec c0 "/") as [ -> | _ ]; [|reflexivity].
    vm_compute in Hc. now contradiction Hc.
  - destruct enc as [|c0 rest]; [reflexivity|].
    cbn. inversion Henc as [|? ? _ Hrest]; subst.
    destruct (ascii_dec c0 b); [now apply IH | reflexivity].
Qed.

Lemma index_from_append_slash (enc s : string) (i : Z) :
  enc <> "" ->
  Forall (fun c => utf8.RuneSelf <= byte_val c) (list_ascii_of_string enc) ->
  strings.index_from i (s ++ "/") enc = strings.index_from i s enc.
Proof.
  intros Hne Henc. revert i. induction s as [|b t IH]; intros i.
  - pose proof (prefix_append_slash enc "" Henc) as Hp.
    cbn [String.append strings.index_from] in *. unfold strings.HasPrefix.
    rewrite Hp. destruct enc; [congruence | reflexivity].
  - cbn [String.append strings.index_from]. unfold strings.HasPrefix.
    change (String b (t ++ "/")) with ((String b t ++ "/")%string).
    rewrite (prefix_append_slash enc (String b t) Henc).
    now rewrite IH.
Qed.

Lemma IndexByte_append_slash (s : string) (c : ascii) :
  (0 <=? strings.IndexByte (s ++ "/") c)
  = (0 <=? strings.IndexByte s c) || Ascii.eqb c "/".
Proof.
  induction s as [|b t IH].
  - cbn [String.append]. rewrite IndexByte_cons.
    change (0 <=? strings.IndexByte "" c) with false.
    rewrite orb_false_r. apply Ascii.eqb_sym.
  - cbn [String.append]. rewrite !IndexByte_cons, IH. now rewrite orb_assoc.
Qed.

Lemma trail_byte_high (c : ascii) :
  utf8.RuneSelf
  <= byte_val (byte_of (Z.lor utf8.tx (Z.land (byte_val c) utf8.maskx))).
Proof.
  destruct c as [[] [] [] [] [] [] [] []]; vm_compute; discriminate.
Qed.

(** Every byte of the encoding of a rune from [RuneSelf] on is from
    [RuneSelf] on. *)
Lemma EncodeRune_bytes_high (r : Z) :
  utf8.RuneSelf <= r ->
  utf8.EncodeRune r <> ""
  /\ Forall (fun c => utf8.RuneSelf <= byte_val c)
            (list_ascii_of_string (utf8.EncodeRune r)).
Proof.
  intros Hr. unfold utf8.EncodeRune, utf8.encode3.
  unfold utf8.RuneSelf, utf8.rune1Max in *.
  replace ((0 <=? r) && (r <=? 127)) with false by lia.
  split_ifs; (split; [discriminate|]); cbn [list_ascii_of_string];
    repeat constructor;
    (apply lead_byte_high; auto) || apply trail_byte_high.
Qed.

(** The runes of [base ++ "/"] are the runes of [base] and ['/']. *)
Lemma ContainsRune_append_slash (base : string) (r : Z) :
  strings.ContainsRune (base ++ "/") r = trimSet base r.
Proof.
  unfold trimSet, strings.ContainsRune, strings.IndexRune.
  change (byte_val "/") with 47.
  destruct ((0 <=? r) && (r <? utf8.RuneSelf)) eqn:Hascii.
  - rewrite IndexByte_append_slash. f_equal.
    unfold utf8.RuneSelf in Hascii.
    assert (Hb : byte_val (utf8.low_byte r) = r).
    { unfold utf8.low_byte. rewrite (land_ones_mod _ 8) by (lia || reflexivity).
      rewrite Z.mod_small by lia. apply byte_val_of. lia. }
    destruct (Ascii.eqb_spec (utf8.low_byte r) "/") as [He|Hne].
    + rewrite He in Hb. vm_compute in Hb. lia.
    + destruct (Z.eqb_spec r 47) as [ -> |_]; [|reflexivity].
      now contradiction Hne.
  - assert (Hr : utf8.RuneSelf <= r \/ r < 0) by lia.
    replace (r =? 47) with false by (unfold utf8.RuneSelf in Hr; lia).
    rewrite orb_false_r.
    destruct (r =? utf8.RuneError).
    + apply rangeRuneError_append_slash; try lia.
      rewrite append_length. simpl. lia.
    + destruct (utf8.ValidRune r) eqn:Hv; cbn [negb]; [|reflexivity].
      assert (Hhigh : utf8.RuneSelf <= r).
      { destruct Hr as [Hr|Hr]; [exact Hr|].
        unfold utf8.ValidRune, utf8.surrogateMax in Hv.
        replace (0 <=? r) with false in Hv by lia.
        replace (57343 <? r) with false in Hv by lia.
        discriminate Hv. }
      destruct (EncodeRune_bytes_high r Hhigh) as [Hne Hall].
      unfold strings.Index. now rewrite index_from_append_slash.
Qed.

(** The specification read with another description of the same set. *)
Lemma TrimmedLeft_ext (f g : Z -> bool) (s out : string) :
  (forall r, f r = g r) -> TrimmedLeft f s out -> TrimmedLeft g s out.
Proof.
  intros Hfg [Hrun Hout]. split.
  - induction Hrun as [s|s r n out Hs Hd Hin _ IH].
    + apply run_stop.
    + apply run_step with (r := r) (n := n); auto. now rewrite <- Hfg.
  - destruct Hout as [ -> |Hout]; [now left | right]. now rewrite <- Hfg.
Qed.

(** The renaming of [readPath]: the longest leading run of characters
    of the basename and of ['/'] goes. *)
Lemma rename_spec (base : string) (hdr : tar.Header) :
  TrimmedLeft (trimSet base) (tar.Name hdr) (tar.Name (rename base hdr)).
Proof.
  unfold rename. cbn [tar.set_Name tar.Name].
  apply TrimmedLeft_ext with (f := strings.ContainsRune (base ++ "/")).
  - apply ContainsRune_append_slash.
  - apply TrimLeft_spec.
Qed.

(** ** Error classification *)

Lemma prefix_app (a b s : string) :
  String.prefix (a ++ b) s = true -> String.prefix a s = true.
Proof.
  revert s. induction a as [|c a IH]; intros s H; [now destruct s|].
  destruct s as [|c' s]; simpl in *; [discriminate|].
  destruct (ascii_dec c c'); [now apply IH | discriminate].
Qed.

Lemma index_from_app (s a b : string) (i : Z) :
  0 <= i -> 0 <= strings.index_from i s (a ++ b) ->
  0 <= strings.index_from i s a.
Proof.
  revert i. induction s as [|c s IH]; intros i Hi H.
  - cbn [strings.index_from] in *. unfold strings.HasPrefix in *.
    destruct (String.prefix (a ++ b) "") eqn:Hp; [|lia].
    now rewrite (prefix_app _ _ _ Hp).
  - cbn [strings.index_from] in *. unfold strings.HasPrefix in *.
    destruct (String.prefix (a ++ b) (String c s)) eqn:Hp.
    + now rewrite (prefix_app _ _ _ Hp).
    + destruct (String.prefix a (String c s)); [exact Hi|].
      apply IH; [lia | exact H].
Qed.

(** A string that contains [a ++ b] contains [a]. *)
Lemma Contains_app (s a b : string) :
  strings.Contains s (a ++ b) = true -> strings.Contains s a = true.
Proof.
  unfold strings.Contains, strings.Index. intros H.
  apply Z.leb_le. apply Z.leb_le in H.
  now apply index_from_app with (b := b).
Qed.

Lemma isPathNotFound_refines (err : option error) :
  isPathNotFound err = true -> isContainerNotFoundError err = true.
Proof.
  destruct err as [e|]; intros H; [|discriminate H].
  unfold isPathNotFound, isContainerNotFoundError in *.
  apply Contains_app with (b := ":path"). exact H.
Qed.

(** C3, as the code has it: the path-scoped classification refines the
    container-scoped one instead of excluding it.  Every error that
    [isPathNotFound] accepts is accepted by [isContainerNotFoundError]
    too, because the text the latter looks for is the beginning of the
    text the former looks for.  The two are kept apart by their call
    sites only. *)
Theorem isPathNotFound_isContainerNotFoundError :
  forall err : option error,
    isPathNotFound err = true -> isContainerNotFoundError err = true.
Proof.
  intros err. apply isPathNotFound_refines.
Qed.

Lemma isPathNotFound_isContainerNotFoundError_witness :
  isPathNotFound (Some (sample.noSuchPath "web1" "/data/nope")) = true
  /\ isContainerNotFoundError (Some (sample.noSuchPath "web1" "/data/nope"))
     = true.
Proof.
  split.
  - reflexivity.
  - apply isPathNotFound_isContainerNotFoundError. reflexivity.
Defined.

(** C3 as stated fails: the error the Docker client returns for a
    missing path is classified as path-not-found and as
    container-not-found. *)
Lemma classifications_overlap :
  isPathNotFound (Some (LibError "Error: No such container:path: web1:/nope"))
  = true
  /\ isContainerNotFoundError
       (Some (LibError "Error: No such container:path: web1:/nope"))
     = true.
Proof. split; reflexivity. Qed.

(** The converse fails: a missing container is not a missing path. *)
Lemma isContainerNotFoundError_not_isPathNotFound :
  isContainerNotFoundError (Some (sample.noSuchContainer "web2")) = true
  /\ isPathNotFound (Some (sample.noSuchContainer "web2")) = false.
Proof. split; reflexivity. Qed.

(** ** Lifecycle *)

Section Lifecycle.

Variable d : docker.Daemon.

Local Open Scope list_scope.

Lemma Start_eq (env : Environment) (l : docker.log) :
  Start d env l
  = (match docker.start d (l ++ [docker.NewClient]) (name env) with
     | Some e => Some (Errorf "failed to start container: " e)
     | None => None
     end,
     l ++ [docker.NewClient; docker.StartContainer (name env);
           docker.ClientClose]).
Proof.
  unfold Start, docker.defer, docker.bind, docker.dockerClient, docker.Close,
    docker.emit, docker.ContainerStart, docker.ret.
  destruct (docker.start d (l ++ [docker.NewClient]) (name env));
    now rewrite <- !app_assoc.
Qed.

Lemma Stop_eq (env : Environment) (l : docker.log) :
  Stop d env l
  = (match docker.stop d (l ++ [docker.NewClient]) (name env) with
     | Some e => Some (Errorf "failed to stop container: " e)
     | None => None
     end,
     l ++ [docker.NewClient; docker.StopContainer (name env);
           docker.ClientClose]).
Proof.
  unfold Stop, docker.defer, docker.bind, docker.dockerClient, docker.Close,
    docker.emit, docker.ContainerStop, docker.ret.
  destruct (docker.stop d (l ++ [docker.NewClient]) (name env));
    now rewrite <- !app_assoc.
Qed.

Lemma Remove_eq (env : Environment) (l : docker.log) :
  Remove d env l
  = (match docker.remove d (l ++ [docker.NewClient]) (name env) with
     | Some e => Some (Errorf "failed to remove container: " e)
     | None => None
     end,
     l ++ [docker.NewClient; docker.RemoveContainer (name env);
           docker.ClientClose]).
Proof.
  unfold Remove, docker.defer, docker.bind, docker.dockerClient, docker.Close,
    docker.emit, docker.ContainerRemove, docker.ret.
  destruct (docker.remove d (l ++ [docker.NewClient]) (name env));
    now rewrite <- !app_assoc.
Qed.

(** [FindEnvironment] by the answers of the daemon. *)
Lemma FindEnvironment_eq (n : string) (l : docker.log) :
  FindEnvironment d n l
  = let (c, err) := docker.inspect d (l ++ [docker.NewClient]) n in
    if isContainerNotFoundError err then
      ((None, Some ErrMissingContainer),
       l ++ [docker.NewClient; docker.Inspect n; docker.ClientClose])
    else
      match err with
      | Some e =>
          ((None, Some (Errorf "failed to inspect container: " e)),
           l ++ [docker.NewClient; docker.Inspect n; docker.ClientClose])
      | None =>
          (match docker.start d (l ++ [docker.NewClient; docker.Inspect n;
                                       docker.NewClient]) n with
           | Some e =>
               (None, Some (Errorf "failed to start container: " e))
           | None => (Some {| name := n; cnt := c |}, None)
           end,
           l ++ [docker.NewClient; docker.Inspect n; docker.NewClient;
                 docker.StartContainer n; docker.ClientClose;
                 docker.ClientClose])
      end.
Proof.
  unfold FindEnvironment, docker.defer, docker.bind, docker.dockerClient,
    docker.Close, docker.emit, docker.ContainerInspect, docker.ret.
  destruct (docker.inspect d (l ++ [docker.NewClient]) n) as [c err].
  destruct (isContainerNotFoundError err);
    [now rewrite <- !app_assoc|].
  destruct err as [e|]; [now rewrite <- !app_assoc|].
  rewrite Start_eq. cbn [name]. rewrite <- !app_assoc. cbn [app].
  destruct (docker.start d _ n); cbv beta iota;
    rewrite <- ?app_assoc; reflexivity.
Qed.

(** C8: when the inspection of [n] fails with an error that
    [isContainerNotFoundError] accepts, [FindEnvironment] returns no
    handle and the sentinel [ErrMissingContainer], and the daemon has
    been asked to inspect and nothing else, in particular not to start
    anything.  When [FindEnvironment] returns a handle and no error, the
    daemon has been asked to start [n] after the inspection and has
    answered without error before the function returned; so a failed
    start leaves no handle. *)
Theorem FindEnvironment_missing_or_started (n : string) (l : docker.log) :
  (isContainerNotFoundError
     (snd (docker.inspect d (l ++ [docker.NewClient]) n)) = true ->
   FindEnvironment d n l
   = ((None, Some ErrMissingContainer),
      l ++ [docker.NewClient; docker.Inspect n; docker.ClientClose])
   /\ forall n', ~ In (docker.StartContainer n')
                     [docker.NewClient; docker.Inspect n; docker.ClientClose])
  /\ (forall env l',
        FindEnvironment d n l = ((Some env, None), l') ->
        l' = l ++ [docker.NewClient; docker.Inspect n; docker.NewClient;
                   docker.StartContainer n; docker.ClientClose;
                   docker.ClientClose]
        /\ docker.start d (l ++ [docker.NewClient; docker.Inspect n;
                                 docker.NewClient]) n = None
        /\ Start d env (l ++ [docker.NewClient; docker.Inspect n])
           = (None, l ++ [docker.NewClient; docker.Inspect n;
                          docker.NewClient; docker.StartContainer n;
                          docker.ClientClose])
        /\ name env = n).
Proof.
  rewrite FindEnvironment_eq.
  destruct (docker.inspect d (l ++ [docker.NewClient]) n) as [c err].
  cbn [snd]. split.
  - intros ->. split; [reflexivity|].
    intros n' [H|[H|[H|[]]]]; discriminate H.
  - intros env l'.
    destruct (isContainerNotFoundError err); [discriminate|].
    destruct err as [e|]; [discriminate|].
    destruct (docker.start d _ n) as [e|] eqn:Hs; [discriminate|].
    intros H. injection H as <- <-.
    rewrite Start_eq. cbn [name]. rewrite <- !app_assoc. cbn [app].
    rewrite Hs. auto.
Qed.

(** C9: [Purge] is [Stop] and then [Remove].  An error of [Stop] is
    returned as it is, the daemon having been asked to stop and not to
    remove; after a successful [Stop] the result of [Purge] is the
    result of [Remove], the removal being asked after the stop; so
    [Purge] succeeds exactly when both do. *)
Theorem Purge_stop_then_remove (env : Environment) (l : docker.log) :
  let l1 := l ++ [docker.NewClient; docker.StopContainer (name env);
                  docker.ClientClose] in
  let l2 := l ++ [docker.NewClient; docker.StopContainer (name env);
                  docker.ClientClose; docker.NewClient;
                  docker.RemoveContainer (name env); docker.ClientClose] in
  (forall e, fst (Stop d env l) = Some e -> Purge d env l = (Some e, l1))
  /\ (fst (Stop d env l) = None ->
      snd (Stop d env l) = l1
      /\ Purge d env l = Remove d env l1
      /\ snd (Purge d env l) = l2)
  /\ (fst (Purge d env l) = None <->
      fst (Stop d env l) = None /\ fst (Remove d env l1) = None).
Proof.
  intros l1 l2.
  assert (HP : Purge d env l
               = match fst (Stop d env l) with
                 | Some e => (Some e, l1)
                 | None => Remove d env l1
                 end).
  { unfold Purge, docker.bind, docker.ret. rewrite Stop_eq. cbn [fst].
    fold l1.
    destruct (docker.stop d (l ++ [docker.NewClient]) (name env));
      [reflexivity|].
    destruct (Remove d env l1) as [[e|] l']; reflexivity. }
  assert (HR : snd (Remove d env l1) = l2).
  { rewrite Remove_eq. cbn [snd]. subst l1 l2.
    now rewrite <- !app_assoc. }
  split; [|split].
  - intros e He. now rewrite HP, He.
  - intros Hs. rewrite HP, Hs. split; [|split]; auto.
    now rewrite Stop_eq.
  - rewrite HP. destruct (fst (Stop d env l)) as [e|]; cbn [fst].
    + split; [discriminate | intros [H _]; discriminate H].
    + tauto.
Qed.

End Lifecycle.

(** The sample daemon knows no container [web2]; [web1] is found and
    started. *)
Lemma FindEnvironment_missing_or_started_witness :
  FindEnvironment sample.daemon "web2" []
  = ((None, Some ErrMissingContainer),
     [docker.NewClient; docker.Inspect "web2"; docker.ClientClose])
  /\ docker.start sample.daemon
       [docker.NewClient; docker.Inspect "web1"; docker.NewClient] "web1"
     = None.
Proof.
  split.
  - apply (proj1 (FindEnvironment_missing_or_started sample.daemon "web2" [])).
    reflexivity.
  - apply (proj2 (FindEnvironment_missing_or_started sample.daemon "web1" [])
             sample.env
             [docker.NewClient; docker.Inspect "web1"; docker.NewClient;
              docker.StartContainer "web1"; docker.ClientClose;
              docker.ClientClose]).
    reflexivity.
Defined.

(** Stopping [web1] a second time fails and nothing is removed; the
    first time it is stopped and removed. *)
Lemma Purge_stop_then_remove_witness :
  Purge sample.daemon sample.env
    [docker.NewClient; docker.StopContainer "web1"; docker.ClientClose]
  = (Some (Errorf "failed to stop container: "
             (LibError "Error: container already stopped")),
     [docker.NewClient; docker.StopContainer "web1"; docker.ClientClose;
      docker.NewClient; docker.StopContainer "web1"; docker.ClientClose])
  /\ Purge sample.daemon sample.env []
     = Remove sample.daemon sample.env
         [docker.NewClient; docker.StopContainer "web1"; docker.ClientClose].
Proof.
  split.
  - apply (proj1 (Purge_stop_then_remove sample.daemon sample.env
                    [docker.NewClient; docker.StopContainer "web1";
                     docker.ClientClose])).
    reflexivity.
  - apply (proj1 (proj2 (Purge_stop_then_remove sample.daemon sample.env []))).
    reflexivity.
Defined.

(** ** The transcoding loop *)

Section Transcoding.

Variable allowedFormats : tar.Header -> option error.

Local Open Scope list_scope.

(** One iteration of the loop, as the program has it: [tr.Next()],
    the renaming, [tw.WriteHeader(hdr)], [io.Copy(tw, tr)]. *)
Lemma readPath_loop_Next (base : string) (tr : tar.Reader) (tw : tar.Writer) :
  readPath_loop allowedFormats base
    (tar.entries (tar.rest tr)) (tar.final (tar.rest tr)) tw
  = match tar.Next tr with
    | (inr err, _) =>
        if is_EOF err then inl tw
        else inr (Errorf "failed to read from tar reader: " err)
    | (inl hdr, tr) =>
        match tar.WriteHeader allowedFormats tw (rename base hdr) with
        | (Some err, _) => inr (Errorf "failed to write header: " err)
        | (None, tw) =>
            match io.Copy tw tr with
            | (Some err, _, _) => inr (Errorf "failed to copy: " err)
            | (None, tw, tr) =>
                readPath_loop allowedFormats base
                  (tar.entries (tar.rest tr)) (tar.final (tar.rest tr)) tw
            end
        end
    end.
Proof.
  unfold tar.Next. destruct tr as [cur [es fin]]. cbn [tar.rest tar.entries tar.final].
  destruct es as [|e es]; [reflexivity|].
  cbn [readPath_loop].
  destruct (tar.WriteHeader allowedFormats tw (rename base (tar.hdr e)))
    as [[err|] tw1]; [reflexivity|].
  unfold io.Copy. cbn [tar.curr tar.rest].
  destruct (tar.data e) as [|b0 bs].
  - destruct (is_EOF (tar.dataEnd e)); reflexivity.
  - destruct (tar.Write tw1 (b0 :: bs)) as [[ew|] tw2]; [reflexivity|].
    destruct (is_EOF (tar.dataEnd e)); reflexivity.
Qed.

Lemma append_data_last (fs : list (tar.Header * list Byte.byte))
  (h : tar.Header) (x b : list Byte.byte) :
  tar.append_data (fs ++ [(h, x)]) b = fs ++ [(h, x ++ b)].
Proof.
  induction fs as [|f fs IH]; [reflexivity|].
  cbn [app tar.append_data]. rewrite IH.
  destruct (fs ++ [(h, x)]) eqn:E; [|reflexivity].
  now destruct fs.
Qed.

Lemma is_EOF_true (e : error) : is_EOF e = true -> e = EOF.
Proof. destruct e; (reflexivity || discriminate). Qed.

(** A copy that succeeds has put the whole payload behind the header
    just written, and the payload ended with [io.EOF]. *)
Lemma Copy_ok (fs : list (tar.Header * list Byte.byte)) (tl : bool)
  (h : tar.Header) (n : Z) (b : list Byte.byte) (er : error)
  (rest : tar.Stream) (tw' : tar.Writer) (tr' : tar.Reader) :
  io.Copy {| tar.w := {| tar.files := fs ++ [(h, [])]; tar.trailer := tl |};
             tar.nb := n |}
          {| tar.curr := (b, er); tar.rest := rest |}
  = (None, tw', tr') ->
  er = EOF
  /\ tar.files (tar.w tw') = fs ++ [(h, b)]
  /\ tar.trailer (tar.w tw') = tl
  /\ tar.nb tw' = n - Z.of_nat (List.length b)
  /\ Z.of_nat (List.length b) <= Z.max n 0
  /\ tar.rest tr' = rest.
Proof.
  unfold io.Copy. cbn [tar.curr tar.rest].
  destruct b as [|b0 bs].
  - destruct (is_EOF er) eqn:He; [|discriminate].
    intros H. injection H as <- <-. cbn.
    repeat split; auto using is_EOF_true; lia.
  - unfold tar.Write. cbn [tar.nb tar.w tar.files tar.trailer].
    destruct (n <? Z.of_nat (List.length (b0 :: bs))) eqn:Hn; [discriminate|].
    destruct (is_EOF er) eqn:He; [|discriminate].
    intros H. injection H as <- <-. cbn [tar.w tar.files tar.trailer tar.nb tar.rest].
    rewrite append_data_last. cbn [app].
    repeat split; auto using is_EOF_true; lia.
Qed.

(** The loop breaks only at the end of the archive, with every entry
    written in order, renamed, its payload whole. *)
Lemma readPath_loop_break (base : string) (es : list tar.Entry) (fin : error)
  (tw tw' : tar.Writer) :
  readPath_loop allowedFormats base es fin tw = inl tw' ->
  fin = EOF
  /\ tar.files (tar.w tw')
     = tar.files (tar.w tw)
       ++ map (fun e => (rename base (tar.hdr e), tar.data e)) es
  /\ tar.trailer (tar.w tw') = tar.trailer (tar.w tw)
  /\ Forall (fun e => tar.dataEnd e = EOF) es
  /\ (es <> [] -> tar.nb tw' <= 0 -> 
      Forall (fun e => 0 <= tar.payloadSize (rename base (tar.hdr e)) ->
                       Z.of_nat (List.length (tar.data e))
                       = tar.payloadSize (rename base (tar.hdr e))) es).
Proof.
  revert tw. induction es as [|e es IH]; intros tw H.
  - cbn [readPath_loop] in H. destruct (is_EOF fin) eqn:He; [|discriminate].
    injection H as <-. rewrite app_nil_r.
    repeat split; auto using is_EOF_true; congruence.
  - cbn [readPath_loop] in H.
    unfold tar.WriteHeader in H.
    destruct (tar.Flush tw) as [err|] eqn:Hfl; [discriminate|].
    destruct (allowedFormats (rename base (tar.hdr e))) as [err|]; [discriminate|].
    match type of H with
    | match io.Copy ?a ?b with _ => _ end = _ =>
        destruct (io.Copy a b) as [[[err|] tw2] tr2] eqn:Hc; [discriminate|]
    end.
    apply Copy_ok in Hc as (Hend & Hf & Ht & Hnb & Hlen & _).
    destruct (IH _ H) as (Hfin & Hfiles & Htl & Hends & Hsz).
    split; [exact Hfin|]. split; [|split; [|split]].
    + rewrite Hfiles, Hf. cbn [map]. now rewrite <- app_assoc.
    + congruence.
    + constructor; assumption.
    + intros _ Hnb'. 
      assert (Hnb2 : tar.nb tw2 <= 0).
      { destruct es as [|e' es'].
        - cbn [readPath_loop] in H. destruct (is_EOF fin); [|discriminate].
          injection H as ->. exact Hnb'.
        - cbn [readPath_loop] in H. unfold tar.WriteHeader, tar.Flush in H.
          destruct (0 <? tar.nb tw2) eqn:Hpos; [discriminate | lia]. }
      constructor.
      * intros Hp. lia.
      * destruct es as [|e' es']; [constructor|].
        apply Hsz; [discriminate | exact Hnb'].
Qed.

(** What a successful [readPath_body] returns. *)
Lemma readPath_body_ok (path : string) (rdr : tar.Stream) (buf : tar.Archive) :
  readPath_body allowedFormats path rdr = (Some buf, None) ->
  tar.final rdr = EOF
  /\ tar.files buf
     = map (fun e => (rename (filepath.Base path) (tar.hdr e), tar.data e))
           (tar.entries rdr)
  /\ tar.trailer buf = true
  /\ Forall (fun e => tar.dataEnd e = EOF) (tar.entries rdr)
  /\ Forall (fun e =>
               0 <= tar.payloadSize (rename (filepath.Base path) (tar.hdr e)) ->
               Z.of_nat (List.length (tar.data e))
               = tar.payloadSize (rename (filepath.Base path) (tar.hdr e)))
            (tar.entries rdr).
Proof.
  unfold readPath_body, readPath_finish. cbn [tar.NewReader tar.rest].
  destruct (readPath_loop allowedFormats (filepath.Base path)
              (tar.entries rdr) (tar.final rdr) tar.NewWriter)
    as [tw|err] eqn:Hl; [|discriminate].
  unfold tar.Close. unfold tar.Flush.
  destruct (0 <? tar.nb tw) eqn:Hnb; [discriminate|].
  intros H. injection H as <-. cbn [tar.files tar.trailer].
  apply readPath_loop_break in Hl as (Hfin & Hfiles & _ & Hends & Hsz).
  repeat split; auto.
  destruct (tar.entries rdr) as [|e es] eqn:He; [constructor|].
  apply Hsz; [discriminate | lia].
Qed.

(** The first codec call that fails decides the result: no archive, and
    the error of the call in the context of its phase. *)
Lemma FirstFailure_result (base : string) (tr : tar.Reader) (tw : tar.Writer)
  (p : phase) (err : error) :
  FirstFailure allowedFormats base tr tw p err ->
  readPath_finish
    (readPath_loop allowedFormats base
       (tar.entries (tar.rest tr)) (tar.final (tar.rest tr)) tw)
  = (None, Some (Errorf (phase_context p) err)).
Proof.
  induction 1 as [tr tw err tr' HN He
                 |tr tw hdr tr' err tw' HN HW
                 |tr tw hdr tr1 tw1 err tw2 tr2 HN HW HC
                 |tr tw tr' err tw' HN HCl
                 |tr tw hdr tr1 tw1 tw2 tr2 p err HN HW HC _ IH];
    rewrite readPath_loop_Next, HN.
  - now rewrite He.
  - now rewrite HW.
  - now rewrite HW, HC.
  - cbn [is_EOF readPath_finish]. now rewrite HCl.
  - rewrite HW, HC. exact IH.
Qed.

(** Conversely, when no archive is returned some codec call has
    failed, and the error is the one of that call in its context. *)
Lemma readPath_loop_failure (base : string) (es : list tar.Entry)
  (fin : error) (cur : list Byte.byte * error) (tw : tar.Writer)
  (x : option error) :
  readPath_finish (readPath_loop allowedFormats base es fin tw) = (None, x) ->
  exists p err,
    FirstFailure allowedFormats base
      {| tar.curr := cur;
         tar.rest := {| tar.entries := es; tar.final := fin |} |} tw p err
    /\ x = Some (Errorf (phase_context p) err).
Proof.
  revert cur tw. induction es as [|e es IH]; intros cur tw H.
  - cbn [readPath_loop] in H. destruct (is_EOF fin) eqn:He.
    + apply is_EOF_true in He. subst fin. cbn [readPath_finish] in H.
      destruct (tar.Close tw) as [[err|] tw'] eqn:HC; [|discriminate].
      injection H as <-. exists Finalizing, err. split; [|reflexivity].
      eapply fails_close; [reflexivity | exact HC].
    + injection H as <-. exists ReadingHeader, fin. split; [|reflexivity].
      eapply fails_read; [reflexivity | exact He].
  - cbn [readPath_loop] in H.
    destruct (tar.WriteHeader allowedFormats tw (rename base (tar.hdr e)))
      as [[err|] tw1] eqn:HW.
    + injection H as <-. exists WritingHeader, err. split; [|reflexivity].
      eapply fails_write; [reflexivity | exact HW].
    + match type of H with
      | context [io.Copy ?a ?b] =>
          destruct (io.Copy a b) as [[[err|] tw2] tr2] eqn:HC
      end.
      * injection H as <-. exists CopyingPayload, err. split; [|reflexivity].
        eapply fails_copy; [reflexivity | exact HW | exact HC].
      * assert (Hr : tr2 = {| tar.curr := ([], tar.dataEnd e);
                              tar.rest := {| tar.entries := es;
                                             tar.final := fin |} |}).
        { unfold io.Copy in HC. cbn [tar.curr tar.rest] in HC.
          destruct (tar.data e);
            [|destruct (tar.Write tw1 _) as [[?|] ?]];
            try destruct (is_EOF (tar.dataEnd e)); congruence. }
        destruct (IH ([], tar.dataEnd e) tw2 H) as (p & err & HF & Hx).
        exists p, err. split; [|exact Hx].
        eapply fails_later; [reflexivity | exact HW | exact HC |].
        rewrite Hr. exact HF.
Qed.

End Transcoding.

(** ** [readPath] *)

Section ReadPath.

Variable allowedFormats : tar.Header -> option error.
Variable d : docker.Daemon.

Local Open Scope list_scope.

(** [readPath] by the answer of the daemon to the copy request. *)
Lemma readPath_eq (e : Environment) (path : string) (l : docker.log) :
  readPath allowedFormats d e path l
  = match docker.copy d (l ++ [docker.NewClient]) (name e) path with
    | inr err =>
        ((None,
          Some (if isPathNotFound (Some err) then errNoSuchFile
                else Errorf ("failed to get reader for path '"
                               ++ path ++ "': ")%string err)),
         l ++ [docker.NewClient; docker.CopyFrom (name e) path;
               docker.ClientClose])
    | inl rdr =>
        (readPath_body allowedFormats path rdr,
         l ++ [docker.NewClient; docker.CopyFrom (name e) path;
               docker.BodyClose; docker.ClientClose])
    end.
Proof.
  unfold readPath, docker.defer, docker.bind, docker.dockerClient,
    docker.Close, docker.CloseBody, docker.emit, docker.CopyFromContainer,
    docker.ret.
  destruct (docker.copy d (l ++ [docker.NewClient]) (name e) path)
    as [rdr|err].
  - cbn [isPathNotFound]. now rewrite <- !app_assoc.
  - destruct (isPathNotFound (Some err)); now rewrite <- !app_assoc.
Qed.

(** A returned archive comes from a stream the daemon answered with,
    transcoded without error. *)
Lemma readPath_ok (e : Environment) (path : string) (l l' : docker.log)
  (buf : tar.Archive) :
  readPath allowedFormats d e path l = ((Some buf, None), l') ->
  exists rdr,
    docker.copy d (l ++ [docker.NewClient]) (name e) path = inl rdr
    /\ readPath_body allowedFormats path rdr = (Some buf, None)
    /\ l' = l ++ [docker.NewClient; docker.CopyFrom (name e) path;
                  docker.BodyClose; docker.ClientClose].
Proof.
  rewrite readPath_eq.
  destruct (docker.copy d (l ++ [docker.NewClient]) (name e) path)
    as [rdr|err]; [|discriminate].
  intros H. injection H as H <-. now exists rdr.
Qed.



End ReadPath.

(** The text that makes [readPath] answer [errNoSuchFile] makes
    [FindEnvironment] answer [ErrMissingContainer]: one error text can
    set off either sentinel, depending on the call it comes from. *)
Lemma same_text_either_sentinel (text : string) (d : docker.Daemon)
  (e : Environment) (path n : string) :
  docker.copy d [docker.NewClient] (name e) path = inr (LibError text) ->
  docker.inspect d [docker.NewClient] n
  = (types.zeroContainerJSON, Some (LibError text)) ->
  isPathNotFound (Some (LibError text)) = true ->
  forall allowedFormats,
    fst (readPath allowedFormats d e path []) = (None, Some errNoSuchFile)
    /\ fst (FindEnvironment d n []) = (None, Some ErrMissingContainer).
Proof.
  intros Hc Hi Hp allowedFormats. split.
  - rewrite readPath_eq. cbn [app]. now rewrite Hc, Hp.
  - rewrite FindEnvironment_eq. cbn [app]. rewrite Hi.
    now rewrite (isPathNotFound_refines (Some (LibError text)) Hp).
Qed.

(** ** The final segment of a path *)

Lemma append_assoc (a b c : string) : ((a ++ b) ++ c = a ++ b ++ c)%string.
Proof.
  induction a as [|x a IH]; [reflexivity|]. cbn [String.append].
  now rewrite IH.
Qed.

Lemma at_append (p x : string) (k : nat) :
  (k < String.length p)%nat -> at_ (p ++ x) k = at_ p k.
Proof.
  intros Hk. unfold at_. now rewrite <- String.append_correct1.
Qed.

Lemma at_append_end (p : string) (c : ascii) (x : string) :
  at_ (p ++ String c x) (String.length p) = byte_val c.
Proof.
  induction p as [|a p IH]; [reflexivity|]. exact IH.
Qed.

Lemma substring_append (p x : string) (k : nat) :
  (k <= String.length p)%nat ->
  String.substring 0 k (p ++ x) = String.substring 0 k p.
Proof.
  revert k. induction p as [|a p IH]; intros k Hk.
  - destruct k; [|simpl in Hk; lia]. now destruct x.
  - destruct k as [|k]; [reflexivity|]. cbn [String.append String.substring].
    rewrite IH by (simpl in Hk; lia). reflexivity.
Qed.

Lemma stripTrailingSeparators_append (p x : string) (k : nat) :
  (k <= String.length p)%nat ->
  filepath.stripTrailingSeparators (p ++ x) k
  = filepath.stripTrailingSeparators p k.
Proof.
  induction k as [|k IH]; intros Hk; [reflexivity|].
  cbn [filepath.stripTrailingSeparators].
  rewrite at_append by lia. rewrite IH by lia.
  now rewrite substring_append by lia.
Qed.

Lemma at_drop (n : nat) (s : string) (j : nat) :
  at_ (drop n s) j = at_ s (n + j).
Proof.
  revert s. induction n as [|n IH]; intros s; [reflexivity|].
  destruct s as [|c s]; [now destruct j | apply IH].
Qed.

Lemma lastSeparator_spec (s : string) (k : nat) :
  -1 <= filepath.lastSeparator s k < Z.of_nat k
  /\ forall j : nat,
       filepath.lastSeparator s k < Z.of_nat j < Z.of_nat k ->
       filepath.IsPathSeparator (at_ s j) = false.
Proof.
  induction k as [|k [IH1 IH2]]; cbn [filepath.lastSeparator].
  - split; [lia|]. intros j Hj. lia.
  - destruct (filepath.IsPathSeparator (at_ s k)) eqn:Hk.
    + split; [lia|]. intros j Hj. lia.
    + split; [lia|]. intros j Hj.
      destruct (Nat.eq_dec j k) as [ -> |Hne]; [exact Hk|].
      apply IH2. lia.
Qed.

Lemma at_append_right (p x : string) (j : nat) :
  at_ (p ++ x) (String.length p + j) = at_ x j.
Proof.
  induction p as [|a p IH]; [reflexivity | exact IH].
Qed.

Lemma drop_append_whole (p x : string) : drop (String.length p) (p ++ x) = x.
Proof.
  induction p as [|a p IH]; [reflexivity | exact IH].
Qed.

Lemma substring_whole (s : string) : String.substring 0 (String.length s) s = s.
Proof.
  induction s as [|a s IH]; [reflexivity|].
  cbn [String.length String.substring]. now rewrite IH.
Qed.

Lemma only_separators_at (s : string) (j : nat) :
  only_separators s = true -> (j < String.length s)%nat ->
  filepath.IsPathSeparator (at_ s j) = true.
Proof.
  revert j. induction s as [|c s IH]; intros j H Hj; [simpl in Hj; lia|].
  cbn [only_separators] in H. apply andb_true_iff in H as [Hc Hs].
  destruct j as [|j].
  - apply Ascii.eqb_eq in Hc. subst c. reflexivity.
  - change (at_ (String c s) (S j)) with (at_ s j).
    apply (IH j Hs). simpl in Hj. lia.
Qed.

Lemma no_separator_at (s : string) (j : nat) :
  no_separator s = true -> (j < String.length s)%nat ->
  filepath.IsPathSeparator (at_ s j) = false.
Proof.
  revert j. induction s as [|c s IH]; intros j H Hj; [simpl in Hj; lia|].
  cbn [no_separator] in H. apply andb_true_iff in H as [Hc Hs].
  destruct j as [|j].
  - change (at_ (String c s) 0) with (byte_val c).
    apply negb_true_iff in Hc. apply Ascii.eqb_neq in Hc.
    unfold filepath.IsPathSeparator. apply Z.eqb_neq. intros He.
    apply Hc. unfold byte_val in He. apply N2Z.inj in He.
    rewrite <- (ascii_N_embedding c), He. apply ascii_N_embedding.
  - change (at_ (String c s) (S j)) with (at_ s j).
    apply (IH j Hs). simpl in Hj. lia.
Qed.

Lemma stripTrailingSeparators_seps (p seps : string) (k : nat) :
  only_separators seps = true -> (k <= String.length seps)%nat ->
  filepath.stripTrailingSeparators (p ++ seps) (String.length p + k)
  = filepath.stripTrailingSeparators p (String.length p).
Proof.
  intros Hs. induction k as [|k IH]; intros Hk.
  - rewrite Nat.add_0_r. apply stripTrailingSeparators_append. lia.
  - rewrite Nat.add_succ_r. cbn [filepath.stripTrailingSeparators].
    rewrite at_append_right, (only_separators_at seps k Hs) by lia.
    apply IH. lia.
Qed.

Lemma stripTrailingSeparators_segment (dir seg : string) :
  seg <> "" -> no_separator seg = true ->
  filepath.stripTrailingSeparators (dir ++ seg) (String.length (dir ++ seg))
  = dir ++ seg.
Proof.
  intros Hne Hno.
  destruct (String.length (dir ++ seg)) as [|k] eqn:Hl.
  { rewrite append_length in Hl. destruct seg; [congruence | simpl in Hl; lia]. }
  cbn [filepath.stripTrailingSeparators].
  assert (Hk : k = (String.length dir + (String.length seg - 1))%nat).
  { rewrite append_length in Hl. destruct seg; [congruence | simpl in *; lia]. }
  rewrite Hk at 1. rewrite at_append_right, no_separator_at.
  - rewrite <- Hl. apply substring_whole.
  - exact Hno.
  - destruct seg; [congruence | simpl; lia].
Qed.

Lemma lastSeparator_segment (dir seg : string) (k : nat) :
  no_separator seg = true -> (k <= String.length seg)%nat ->
  filepath.lastSeparator (dir ++ seg) (String.length dir + k)
  = filepath.lastSeparator (dir ++ seg) (String.length dir).
Proof.
  intros Hno. induction k as [|k IH]; intros Hk.
  - now rewrite Nat.add_0_r.
  - rewrite Nat.add_succ_r. cbn [filepath.lastSeparator].
    rewrite at_append_right, (no_separator_at seg k Hno) by lia.
    apply IH. lia.
Qed.

(** [filepath.Base] returns the final segment of the path. *)
Lemma Base_last_segment (path seg : string) :
  LastSegment path seg -> filepath.Base path = seg.
Proof.
  intros [[-> ->]|[(Hne & Hs & ->)|(Hne & Hno & dir & seps & -> & Hs & Hdir)]].
  - reflexivity.
  - unfold filepath.Base.
    destruct (String.length path =? 0)%nat eqn:Hl.
    { destruct path; [congruence | discriminate]. }
    pose proof (stripTrailingSeparators_seps "" path (String.length path) Hs
                  (Nat.le_refl _)) as H.
    cbn [String.append String.length Nat.add filepath.stripTrailingSeparators]
      in H.
    rewrite H. reflexivity.
  - unfold filepath.Base.
    destruct (String.length (dir ++ seg ++ seps) =? 0)%nat eqn:Hl.
    { apply Nat.eqb_eq in Hl. rewrite !append_length in Hl.
      destruct seg; [congruence | simpl in Hl; lia]. }
    rewrite <- append_assoc.
    rewrite (append_length (dir ++ seg) seps).
    rewrite stripTrailingSeparators_seps by (auto; lia).
    rewrite stripTrailingSeparators_segment by assumption.
    rewrite append_length, lastSeparator_segment by (auto; lia).
    assert (Hseg : (String.length seg =? 0)%nat = false).
    { destruct seg; [congruence | reflexivity]. }
    destruct Hdir as [->|[dir' ->]].
    + cbn [String.length filepath.lastSeparator String.append].
      change (0 <=? -1) with false. cbv iota. now rewrite Hseg.
    + rewrite append_length. change (String.length "/") with 1%nat.
      rewrite Nat.add_1_r. cbn [filepath.lastSeparator].
      assert (Hat : at_ ((dir' ++ "/") ++ seg) (String.length dir')
                    = byte_val "/")
        by (rewrite append_assoc; apply at_append_end).
      rewrite Hat.
      change (filepath.IsPathSeparator (byte_val "/")) with true. cbv iota.
      replace (0 <=? Z.of_nat (String.length dir')) with true
        by (symmetry; apply Z.leb_le; lia).
      replace (Z.to_nat (Z.of_nat (String.length dir') + 1))
        with (String.length (dir' ++ "/"))
        by (rewrite append_length; simpl; lia).
      rewrite drop_append_whole.
      now rewrite Hseg.
Qed.

(** Every path has a final segment. *)
Lemma LastSegment_exists (path : string) : exists seg, LastSegment path seg.
Proof.
  induction path as [|c t [seg IH]].
  - exists ".". left. split; reflexivity.
  - destruct (Ascii.eqb c filepath.Separator) eqn:Hc.
    + apply Ascii.eqb_eq in Hc. subst c.
      destruct IH as [[-> ->]|[(Hne & Hs & ->)
                              |(Hne & Hno & dir & seps & -> & Hs & Hdir)]].
      * exists "/". right; left. repeat split; discriminate.
      * exists "/". right; left. repeat split; [discriminate|].
        cbn [only_separators]. now rewrite Hs.
      * exists seg. right; right. split; [exact Hne|]. split; [exact Hno|].
        exists (String filepath.Separator dir), seps.
        split; [reflexivity|]. split; [exact Hs|]. right.
        destruct Hdir as [->|[dir' ->]].
        -- now exists "".
        -- now exists (String filepath.Separator dir').
    + destruct IH as [[-> ->]|[(Hne & Hs & ->)
                              |(Hne & Hno & dir & seps & -> & Hs & Hdir)]].
      * exists (String c ""). right; right. split; [discriminate|].
        split; [cbn [no_separator]; now rewrite Hc|].
        exists "", "". repeat split. now left.
      * exists (String c ""). right; right. split; [discriminate|].
        split; [cbn [no_separator]; now rewrite Hc|].
        exists "", t. repeat split; [exact Hs | now left].
      * destruct Hdir as [->|[dir' ->]].
        -- exists (String c seg). right; right. split; [discriminate|].
           split; [cbn [no_separator]; now rewrite Hc, Hno|].
           exists "", seps. repeat split; [exact Hs | now left].
        -- exists seg. right; right. split; [exact Hne|]. split; [exact Hno|].
           exists (String c (dir' ++ "/")), seps.
           split; [reflexivity|]. split; [exact Hs|]. right.
           now exists (String c dir').
Qed.

(** The final segment of a path is its [filepath.Base], and nothing
    else is. *)
Lemma LastSegment_Base (path seg : string) :
  LastSegment path seg <-> seg = filepath.Base path.
Proof.
  split.
  - intros H. symmetry. now apply Base_last_segment.
  - intros ->. destruct (LastSegment_exists path) as [seg H].
    now rewrite (Base_last_segment path seg H).
Qed.

(** ** What [readPath] returns *)

Section Extraction.

Variable allowedFormats : tar.Header -> option error.
Variable reread : tar.Header -> tar.Header.
Variable d : docker.Daemon.

Local Open Scope list_scope.



(** C4: when the copy request fails with an error that [isPathNotFound]
    accepts, [readPath] returns the sentinel [errNoSuchFile] itself and
    a [nil] reader: no archive, not a part of one. *)
Theorem readPath_no_such_file (e : Environment) (path : string)
  (l : docker.log) (err : error) :
  docker.copy d (l ++ [docker.NewClient]) (name e) path = inr err ->
  isPathNotFound (Some err) = true ->
  readPath allowedFormats d e path l
  = ((None, Some errNoSuchFile),
     l ++ [docker.NewClient; docker.CopyFrom (name e) path;
           docker.ClientClose]).
Proof.
  intros Hc Hp. now rewrite readPath_eq, Hc, Hp.
Qed.

(** C5: when, after a successful copy request, a codec call fails at
    some entry (the decoding of a header, the writing of a header, the
    copy of a payload) or at the finalization, [readPath] returns the
    error of that call wrapped in the context of its phase, and a [nil]
    reader: what was written so far is not returned. *)
Theorem readPath_all_or_nothing (e : Environment) (path : string)
  (l : docker.log) (rdr : tar.Stream) (p : phase) (err : error) :
  docker.copy d (l ++ [docker.NewClient]) (name e) path = inl rdr ->
  FirstFailure allowedFormats (filepath.Base path)
    (tar.NewReader rdr) tar.NewWriter p err ->
  readPath allowedFormats d e path l
  = ((None, Some (Errorf (phase_context p) err)),
     l ++ [docker.NewClient; docker.CopyFrom (name e) path;
           docker.BodyClose; docker.ClientClose]).
Proof.
  intros Hc HF. rewrite readPath_eq, Hc. f_equal.
  apply (FirstFailure_result allowedFormats _ _ _ _ _ HF).
Qed.

(** [readPath] returns an archive or an error, never both and never
    neither, and an error after a successful copy request is the error
    of the first failing codec call in the context of its phase. *)
Lemma readPath_archive_xor_error (e : Environment) (path : string)
  (l : docker.log) :
  (exists buf, fst (readPath allowedFormats d e path l) = (Some buf, None))
  \/ (exists err, fst (readPath allowedFormats d e path l) = (None, Some err)
      /\ forall rdr,
           docker.copy d (l ++ [docker.NewClient]) (name e) path = inl rdr ->
           exists p err',
             FirstFailure allowedFormats (filepath.Base path)
               (tar.NewReader rdr) tar.NewWriter p err'
             /\ err = Errorf (phase_context p) err').
Proof.
  rewrite readPath_eq.
  destruct (docker.copy d (l ++ [docker.NewClient]) (name e) path)
    as [rdr|err0].
  - cbn [fst].
    destruct (readPath_body allowedFormats path rdr) as [[buf|] x] eqn:Hb.
    + left. exists buf.
      unfold readPath_body, readPath_finish in Hb.
      destruct (readPath_loop _ _ _ _ _) as [tw|?]; [|discriminate].
      destruct (tar.Close tw) as [[?|] ?]; [discriminate|].
      congruence.
    + right. unfold readPath_body in Hb.
      apply (readPath_loop_failure allowedFormats _ _ _ ([], EOF)) in Hb
        as (p & err' & HF & ->).
      exists (Errorf (phase_context p) err'). split; [reflexivity|].
      intros rdr' Hr. injection Hr as <-. exists p, err'.
      split; [|reflexivity]. destruct rdr as [es fin]. exact HF.
  - right. eexists. split; [reflexivity|]. discriminate.
Qed.


(** C7: when the stream of the copy response ends before any entry,
    [readPath] succeeds; the archive it returns has no entry and has the
    end-of-archive trailer, and a reader of it finds the end of the
    archive at its first [Next]. *)
Theorem readPath_empty_archive (e : Environment) (path : string)
  (l : docker.log) :
  docker.copy d (l ++ [docker.NewClient]) (name e) path
  = inl {| tar.entries := []; tar.final := EOF |} ->
  let buf := {| tar.files := []; tar.trailer := true |} in
  readPath allowedFormats d e path l
  = ((Some buf, None),
     l ++ [docker.NewClient; docker.CopyFrom (name e) path;
           docker.BodyClose; docker.ClientClose])
  /\ fst (tar.Next (tar.NewReader (tar.stream_of reread buf))) = inr EOF.
Proof.
  intros Hc buf. rewrite readPath_eq, Hc. split; reflexivity.
Qed.

(** When the encoder refuses negative payload sizes, as
    [hdr.allowedFormats()] does, the returned archive decodes to the
    input stream itself with the headers renamed and passed through the
    codec: every payload is complete and ends with [io.EOF]. *)
Lemma readPath_stream (e : Environment) (path : string)
  (l l' : docker.log) (buf : tar.Archive) (rdr : tar.Stream) :
  (forall hdr, allowedFormats hdr = None -> 0 <= tar.payloadSize hdr) ->
  readPath allowedFormats d e path l = ((Some buf, None), l') ->
  docker.copy d (l ++ [docker.NewClient]) (name e) path = inl rdr ->
  tar.stream_of reread buf
  = {| tar.entries :=
         map (fun ent => {| tar.hdr :=
                              reread (rename (filepath.Base path) (tar.hdr ent));
                            tar.data := tar.data ent;
                            tar.dataEnd := tar.dataEnd ent |})
             (tar.entries rdr);
       tar.final := tar.final rdr |}.
Proof.
  intros Hsize H Hc.
  apply readPath_ok in H as (rdr' & Hc' & Hb & _).
  rewrite Hc in Hc'. injection Hc' as <-.
  pose proof Hb as Hb'.
  apply readPath_body_ok in Hb as (Hfin & Hf & _ & Hends & Hlen).
  unfold tar.stream_of. rewrite Hf, Hfin. f_equal.
  assert (Hacc : Forall (fun ent =>
                   allowedFormats (rename (filepath.Base path) (tar.hdr ent))
                   = None) (tar.entries rdr)).
  { clear - Hb'. unfold readPath_body, readPath_finish in Hb'.
    cbn [tar.NewReader tar.rest] in Hb'.
    destruct (readPath_loop _ _ _ _ _) as [tw|?] eqn:Hl; [|discriminate].
    clear Hb'. revert Hl. generalize tar.NewWriter.
    induction (tar.entries rdr) as [|x xs IH]; intros tw0 Hl; constructor.
    - cbn [readPath_loop] in Hl. unfold tar.WriteHeader in Hl.
      destruct (tar.Flush tw0); [discriminate|].
      destruct (allowedFormats _); [discriminate | reflexivity].
    - cbn [readPath_loop] in Hl.
      destruct (tar.WriteHeader _ _ _) as [[?|] tw1]; [discriminate|].
      destruct (io.Copy _ _) as [[[?|] tw2] ?]; [discriminate|].
      exact (IH _ Hl). }
  rewrite map_map. cbn [fst snd]. clear - Hsize Hends Hlen Hacc.
  induction (tar.entries rdr) as [|x xs IH]; [reflexivity|].
  inversion Hends as [|? ? He Hes]; inversion Hlen as [|? ? Hl Hls];
    inversion Hacc as [|? ? Ha Has]; subst.
  cbn [map]. rewrite IH by assumption. f_equal. f_equal.
  rewrite He, Hl by (apply Hsize, Ha). now rewrite Z.eqb_refl.
Qed.

End Extraction.

(** C10: trimming twice with the same basename is trimming once; with
    another basename the second trim can remove more. *)
Theorem rename_idempotent :
  (forall name base : string,
      strings.TrimLeft (strings.TrimLeft name (base ++ "/")) (base ++ "/")
      = strings.TrimLeft name (base ++ "/"))
  /\ (forall (base : string) (hdr : tar.Header),
         rename base (rename base hdr) = rename base hdr)
  /\ strings.TrimLeft (strings.TrimLeft "logs/a.log" ("logs" ++ "/"))
                      ("a" ++ "/")
     <> strings.TrimLeft "logs/a.log" ("logs" ++ "/").
Proof.
  split; [|split].
  - intros name base. apply TrimLeft_idempotent.
  - intros base hdr. unfold rename. cbn [tar.set_Name tar.Name].
    now rewrite TrimLeft_idempotent.
  - vm_compute. discriminate.
Qed.

(** *** The sample runtime *)

Lemma sample_logs :
  fst (readPath sample.allowedFormats sample.daemon sample.env "/data/logs" [])
  = (Some {| tar.files :=
               [ (sample.header tar.TypeDir "" 0, []);
                 (sample.header tar.TypeReg "a.log" 10, repeat Byte.x61 10);
                 (sample.header tar.TypeReg "b.log" 20, repeat Byte.x62 20);
                 (sample.header tar.TypeReg "_extra" 5, repeat Byte.x63 5) ];
             tar.trailer := true |},
     None).
Proof. reflexivity. Qed.

Lemma sample_logs_reread :
  Forall (fun f => gotar.decoded (fst f) = Some (fst f))
    [ (sample.header tar.TypeDir "" 0, []);
      (sample.header tar.TypeReg "a.log" 10, repeat Byte.x61 10);
      (sample.header tar.TypeReg "b.log" 20, repeat Byte.x62 20);
      (sample.header tar.TypeReg "_extra" 5, repeat Byte.x63 5) ].
Proof. repeat constructor. Qed.



(** [web1] has no [/data/nope]. *)
Lemma readPath_no_such_file_witness :
  readPath sample.allowedFormats sample.daemon sample.env "/data/nope" []
  = ((None, Some errNoSuchFile),
     [docker.NewClient; docker.CopyFrom "web1" "/data/nope";
      docker.ClientClose]).
Proof.
  apply (readPath_no_such_file sample.allowedFormats sample.daemon sample.env
           "/data/nope" [] (sample.noSuchPath "web1" "/data/nope")).
  - reflexivity.
  - reflexivity.
Defined.

(** The transfer of [/data/cut] breaks off in the second payload: the
    first entry is written, the copy of the second fails. *)
Lemma readPath_all_or_nothing_witness :
  readPath sample.allowedFormats sample.daemon sample.env "/data/cut" []
  = ((None, Some (Errorf "failed to copy: " ErrUnexpectedEOF)),
     [docker.NewClient; docker.CopyFrom "web1" "/data/cut";
      docker.BodyClose; docker.ClientClose]).
Proof.
  apply (readPath_all_or_nothing sample.allowedFormats sample.daemon
           sample.env "/data/cut" [] sample.cut CopyingPayload
           ErrUnexpectedEOF).
  - reflexivity.
  - eapply fails_later.
    + reflexivity.
    + reflexivity.
    + reflexivity.
    + eapply fails_copy; reflexivity.
Defined.


(** [/data/empty] is archived without an entry. *)
Lemma readPath_empty_archive_witness :
  readPath sample.allowedFormats sample.daemon sample.env "/data/empty" []
  = ((Some {| tar.files := []; tar.trailer := true |}, None),
     [docker.NewClient; docker.CopyFrom "web1" "/data/empty";
      docker.BodyClose; docker.ClientClose])
  /\ fst (tar.Next
            (tar.NewReader
               (tar.stream_of gotar.reread
                  {| tar.files := []; tar.trailer := true |})))
     = inr EOF.
Proof.
  apply (readPath_empty_archive sample.allowedFormats gotar.reread
           sample.daemon sample.env "/data/empty" []).
  reflexivity.
Defined.

(** The over-strip of the specification's scenario: the characters of
    [slogs] all occur in [logs/]. *)
Example TrimLeft_slogs_extra :
  strings.TrimLeft "logs/slogs_extra" (filepath.Base "/data/logs" ++ "/")
  = "_extra".
Proof. reflexivity. Qed.

(** Runes, not bytes, are compared: a name that starts with U+00E8 is
    left alone under a basename made of U+00E9, though the two share
    their first byte. *)
Example TrimLeft_runes :
  strings.TrimLeft (utf8.EncodeRune 0xE8 ++ "x")
                   (utf8.EncodeRune 0xE9 ++ "/")
  = utf8.EncodeRune 0xE8 ++ "x".
Proof. reflexivity. Qed.

(** *** Archives with PAX headers *)





(** The archive of [/data/e_acute] holds the file [e_acute/a.log],
    with its name as [path] record.  The trimmed name [a.log] is ASCII:
    the writer has no record to write and no use for the one handed
    over, and the entry comes back as USTAR, without records. *)
Lemma path_record_dropped :
  exists buf,
    fst (readPath sample.allowedFormats pax.daemon sample.env
           ("/data/" ++ pax.e_acute) [])
    = (Some buf, None)
    /\ exists ein eout,
         tar.entries pax.accented = [ein]
         /\ tar.entries (tar.stream_of gotar.reread buf) = [eout]
         /\ gotar.decoded
              (rename (filepath.Base ("/data/" ++ pax.e_acute)) (tar.hdr ein))
            = Some (tar.hdr eout)
         /\ tar.Name (tar.hdr eout) = "a.log"
         /\ tar.PAXRecords (tar.hdr ein)
            = [("path", pax.e_acute ++ "/a.log")]
         /\ tar.PAXRecords (tar.hdr eout) = []
         /\ tar.Format (tar.hdr ein) = gotar.FormatPAX
         /\ tar.Format (tar.hdr eout) = gotar.FormatUSTAR
         /\ ~ same_except_Name (tar.hdr ein) (tar.hdr eout).
Proof.
  eexists. split; [reflexivity|]. eexists. eexists.
  repeat (split; [reflexivity|]).
  intros H. unfold same_except_Name in H.
  do 15 (destruct H as [_ H]). discriminate H.
Qed.

(** * Further properties *)

(** ** [Exec] and [ExecTTY] *)

(** X1: the argument vector of [Exec] is [docker], [exec], [-i], the
    name of the container, the command and then the caller's arguments,
    each as it was given and in the order given; the vector of [ExecTTY]
    has [-it] in the place of [-i] and is the same otherwise.  So two
    calls build the same vector exactly when the name, the command and
    the arguments are the same, and a vector of [Exec] is never one of
    [ExecTTY].  The program is the [docker] that the search of [PATH]
    finds, or the bare name when it finds none, and an error of the
    search is kept in the command, not returned. *)
Theorem Exec_argv (lp : string -> string * option error) (e : Environment)
  (cmd : string) (args : list string) :
  exec.Args (Exec lp e cmd args)
  = ("docker" :: "exec" :: "-i" :: name e :: cmd :: args)%list
  /\ exec.Args (ExecTTY lp e cmd args)
     = ("docker" :: "exec" :: "-it" :: name e :: cmd :: args)%list
  /\ (forall lp' e' cmd' args',
         exec.Args (Exec lp e cmd args) = exec.Args (Exec lp' e' cmd' args')
         <-> name e = name e' /\ cmd = cmd' /\ args = args')
  /\ (forall lp' e' cmd' args',
         exec.Args (ExecTTY lp e cmd args)
         = exec.Args (ExecTTY lp' e' cmd' args')
         <-> name e = name e' /\ cmd = cmd' /\ args = args')
  /\ (forall lp' e' cmd' args',
         exec.Args (Exec lp e cmd args)
         <> exec.Args (ExecTTY lp' e' cmd' args'))
  /\ exec.Path (Exec lp e cmd args)
     = (if String.eqb (fst (lp "docker")) "" then "docker"
        else fst (lp "docker"))
  /\ exec.Path (ExecTTY lp e cmd args) = exec.Path (Exec lp e cmd args)
  /\ exec.Err (Exec lp e cmd args) = snd (lp "docker")
  /\ exec.Err (ExecTTY lp e cmd args) = snd (lp "docker").
Proof.
  assert (HA : forall l n a, exec.Args (exec.CommandContext l n a)
                             = (n :: a)%list).
  { intros l n a. unfold exec.CommandContext.
    destruct (String.eqb (filepath.Base n) n); [|reflexivity].
    destruct (l n) as [p [err|]]; destruct (String.eqb p ""); reflexivity. }
  assert (HP : forall l a,
             exec.Path (exec.CommandContext l "docker" a)
             = (if String.eqb (fst (l "docker")) "" then "docker"
                else fst (l "docker"))
             /\ exec.Err (exec.CommandContext l "docker" a)
                = snd (l "docker")).
  { intros l a. unfold exec.CommandContext.
    change (String.eqb (filepath.Base "docker") "docker") with true.
    cbv iota.
    destruct (l "docker") as [p [err|]]; cbn [fst snd];
      destruct (String.eqb p ""); split; reflexivity. }
  unfold Exec, ExecTTY. rewrite !HA. cbn [app].
  split; [reflexivity|]. split; [reflexivity|].
  split; [|split; [|split; [|split; [|split; [|split]]]]].
  - intros lp' e' cmd' args'. rewrite HA. split.
    + intros Heq. injection Heq as -> -> ->. auto.
    + intros (-> & -> & ->). reflexivity.
  - intros lp' e' cmd' args'. rewrite HA. split.
    + intros Heq. injection Heq as -> -> ->. auto.
    + intros (-> & -> & ->). reflexivity.
  - intros lp' e' cmd' args'. rewrite HA. intros Heq. discriminate Heq.
  - apply HP.
  - now rewrite !(proj1 (HP _ _)).
  - apply HP.
  - apply HP.
Qed.

(** A handle of the same name gives the same vector, whatever else it
    holds and wherever [docker] is found. *)
Lemma Exec_argv_witness :
  exec.Args (Exec (fun n => ("/usr/bin/" ++ n, None)) sample.env
               "ls" ["-l"; "a b"])
  = ["docker"; "exec"; "-i"; "web1"; "ls"; "-l"; "a b"]
  /\ exec.Args (Exec (fun n => ("/usr/bin/" ++ n, None)) sample.env
                  "ls" ["-l"; "a b"])
     = exec.Args (Exec (fun _ => ("", Some (LibError "not found")))
                    {| name := "web1"; cnt := types.zeroContainerJSON |}
                    "ls" ["-l"; "a b"]).
Proof.
  split.
  - apply (proj1 (Exec_argv (fun n => ("/usr/bin/" ++ n, None)) sample.env
                    "ls" ["-l"; "a b"])).
  - apply (proj1 (proj2 (proj2 (Exec_argv (fun n => ("/usr/bin/" ++ n, None))
                                  sample.env "ls" ["-l"; "a b"])))).
    split; [reflexivity|]. split; reflexivity.
Defined.

(** ** Connections *)

Section Connections.

Variable d : docker.Daemon.
Variable allowedFormats : tar.Header -> option error.

Local Open Scope list_scope.

(** X2: every operation of the package leaves the connections as it
    found them.  The calls it adds to the log open a client before
    anything is asked of the daemon, close only what is open, and close
    every client they opened, on the error paths as on the others. *)
Theorem operations_release_clients (env : Environment) (n path : string)
  (l : docker.log) :
  (exists cs, snd (Start d env l) = l ++ cs /\ clients_open 0 cs = Some 0%nat)
  /\ (exists cs, snd (Stop d env l) = l ++ cs
                 /\ clients_open 0 cs = Some 0%nat)
  /\ (exists cs, snd (Remove d env l) = l ++ cs
                 /\ clients_open 0 cs = Some 0%nat)
  /\ (exists cs, snd (Purge d env l) = l ++ cs
                 /\ clients_open 0 cs = Some 0%nat)
  /\ (exists cs, snd (FindEnvironment d n l) = l ++ cs
                 /\ clients_open 0 cs = Some 0%nat)
  /\ (exists cs, snd (readPath allowedFormats d env path l) = l ++ cs
                 /\ clients_open 0 cs = Some 0%nat).
Proof.
  repeat split.
  - rewrite Start_eq. eexists. split; reflexivity.
  - rewrite Stop_eq. eexists. split; reflexivity.
  - rewrite Remove_eq. eexists. split; reflexivity.
  - unfold Purge, docker.bind, docker.ret. rewrite Stop_eq.
    destruct (docker.stop d _ _).
    + eexists. split; reflexivity.
    + rewrite Remove_eq.
      destruct (docker.remove d _ _); cbn [snd]; rewrite <- app_assoc;
        eexists; split; reflexivity.
  - rewrite FindEnvironment_eq.
    destruct (docker.inspect d _ n) as [c [err|]].
    + destruct (isContainerNotFoundError (Some err));
        eexists; split; reflexivity.
    + cbn [isContainerNotFoundError]. eexists. split; reflexivity.
  - rewrite readPath_eq.
    destruct (docker.copy d _ _ _); eexists; split; reflexivity.
Qed.

(** X3: [readPath] asks the daemon for the copy and for nothing else:
    it never inspects, starts, stops or removes a container.  The body
    of the response is closed exactly when the copy has answered with
    one, and before the client is closed. *)
Theorem readPath_log (e : Environment) (path : string) (l : docker.log) :
  snd (readPath allowedFormats d e path l)
  = l ++ [docker.NewClient; docker.CopyFrom (name e) path]
      ++ (match docker.copy d (l ++ [docker.NewClient]) (name e) path with
          | inl _ => [docker.BodyClose]
          | inr _ => []
          end)
      ++ [docker.ClientClose].
Proof.
  rewrite readPath_eq.
  destruct (docker.copy d (l ++ [docker.NewClient]) (name e) path);
    reflexivity.
Qed.

End Connections.

(** ** Error paths of [FindEnvironment] *)

Section FindErrors.

Variable d : docker.Daemon.

Local Open Scope list_scope.

(** X4: [FindEnvironment] asks the daemon to start the container
    exactly when the inspection has returned no error, and never to stop
    or remove one.  An inspection error that is not a missing container
    is returned wrapped as a failed inspection, with no handle. *)
Theorem FindEnvironment_inspect_error (n : string) (l : docker.log) :
  (exists cs,
      snd (FindEnvironment d n l) = l ++ cs
      /\ (In (docker.StartContainer n) cs <->
          snd (docker.inspect d (l ++ [docker.NewClient]) n) = None)
      /\ forall m, ~ In (docker.StopContainer m) cs
                   /\ ~ In (docker.RemoveContainer m) cs)
  /\ (forall c e,
         docker.inspect d (l ++ [docker.NewClient]) n = (c, Some e) ->
         isContainerNotFoundError (Some e) = false ->
         fst (FindEnvironment d n l)
         = (None, Some (Errorf "failed to inspect container: " e))).
Proof.
  rewrite FindEnvironment_eq.
  destruct (docker.inspect d (l ++ [docker.NewClient]) n) as [c [e|]].
  - split.
    + assert (Hcs : forall (b : bool) (x y : option Environment * option error),
                 exists cs,
                   snd (if b
                        then (x, l ++ [docker.NewClient; docker.Inspect n;
                                       docker.ClientClose])
                        else (y, l ++ [docker.NewClient; docker.Inspect n;
                                       docker.ClientClose]))
                   = l ++ cs
                   /\ cs = [docker.NewClient; docker.Inspect n;
                            docker.ClientClose]).
      { intros [|] x y; eexists; split; reflexivity. }
      destruct (Hcs (isContainerNotFoundError (Some e))
                  (None, Some ErrMissingContainer)
                  (None, Some (Errorf "failed to inspect container: " e)))
        as (cs & Hlog & ->).
      eexists. split; [exact Hlog|]. cbn [snd]. split.
      * split; [|discriminate].
        intros [H|[H|[H|[]]]]; discriminate H.
      * intros m. split; intros [H|[H|[H|[]]]]; discriminate H.
    + intros c' e' H Hc. injection H as <- <-. now rewrite Hc.
  - cbn [isContainerNotFoundError snd]. split.
    + eexists. split; [reflexivity|]. split.
      * split; [reflexivity|]. intros _. right. right. right. now left.
      * intros m. split; intros [H|[H|[H|[H|[H|[H|[]]]]]]]; discriminate H.
    + intros c' e' H. discriminate H.
Qed.

(** X5: when the inspection succeeds and the start fails,
    [FindEnvironment] returns no handle and the error of [Start] as
    [Start] returned it, wrapped once; the daemon has been asked to
    start the container once. *)
Theorem FindEnvironment_start_error (n : string) (l : docker.log)
  (c : types.ContainerJSON) (e : error) :
  docker.inspect d (l ++ [docker.NewClient]) n = (c, None) ->
  docker.start d (l ++ [docker.NewClient; docker.Inspect n; docker.NewClient]) n
  = Some e ->
  FindEnvironment d n l
  = ((None, Some (Errorf "failed to start container: " e)),
     l ++ [docker.NewClient; docker.Inspect n; docker.NewClient;
           docker.StartContainer n; docker.ClientClose; docker.ClientClose])
  /\ fst (Start d {| name := n; cnt := c |}
            (l ++ [docker.NewClient; docker.Inspect n]))
     = Some (Errorf "failed to start container: " e).
Proof.
  intros Hi Hs. split.
  - rewrite FindEnvironment_eq, Hi. cbn [isContainerNotFoundError].
    now rewrite Hs.
  - rewrite Start_eq. cbn [fst name]. rewrite <- app_assoc. cbn [app].
    now rewrite Hs.
Qed.

End FindErrors.

Lemma FindEnvironment_inspect_error_witness :
  fst (FindEnvironment faulty.down "web1" [])
  = (None, Some (Errorf "failed to inspect container: " faulty.unreachable)).
Proof.
  apply (proj2 (FindEnvironment_inspect_error faulty.down "web1" [])
           types.zeroContainerJSON faulty.unreachable).
  - reflexivity.
  - reflexivity.
Defined.

Lemma FindEnvironment_start_error_witness :
  FindEnvironment faulty.vanishing "web1" []
  = ((None, Some (Errorf "failed to start container: "
                    (sample.noSuchContainer "web1"))),
     [docker.NewClient; docker.Inspect "web1"; docker.NewClient;
      docker.StartContainer "web1"; docker.ClientClose; docker.ClientClose])
  /\ fst (Start faulty.vanishing {| name := "web1"; cnt := sample.web1 |}
            [docker.NewClient; docker.Inspect "web1"])
     = Some (Errorf "failed to start container: "
               (sample.noSuchContainer "web1")).
Proof.
  apply (FindEnvironment_start_error faulty.vanishing "web1" []
           sample.web1 (sample.noSuchContainer "web1")).
  - reflexivity.
  - reflexivity.
Defined.

(** ** The classifiers as substring tests *)

Lemma prefix_split (sub s : string) :
  String.prefix sub s = true -> exists b, s = sub ++ b.
Proof.
  revert s. induction sub as [|c sub IH]; intros s H.
  - now exists s.
  - destruct s as [|c' s]; [discriminate H|]. simpl in H.
    destruct (ascii_dec c c') as [ -> | _ ]; [|discriminate H].
    destruct (IH s H) as [b ->]. now exists b.
Qed.

Lemma prefix_append (sub b : string) : String.prefix sub (sub ++ b) = true.
Proof.
  induction sub as [|c sub IH]; [now destruct b|].
  simpl. destruct (ascii_dec c c); [exact IH | congruence].
Qed.

Lemma index_from_found (a sub b : string) (i : Z) :
  0 <= i -> 0 <= strings.index_from i (a ++ sub ++ b) sub.
Proof.
  revert i. induction a as [|c a IH]; intros i Hi.
  - cbn [String.append]. 
    destruct (sub ++ b) eqn:E; cbn [strings.index_from];
      unfold strings.HasPrefix; rewrite <- E, prefix_append; exact Hi.
  - cbn [String.append strings.index_from].
    destruct (strings.HasPrefix _ _); [exact Hi | apply IH; lia].
Qed.

Lemma index_from_split (s sub : string) (i : Z) :
  0 <= strings.index_from i s sub -> exists a b, s = a ++ sub ++ b.
Proof.
  revert i. induction s as [|c s IH]; intros i H.
  - cbn [strings.index_from] in H. unfold strings.HasPrefix in H.
    destruct (String.prefix sub "") eqn:Hp; [|lia].
    destruct (prefix_split _ _ Hp) as [b Hb]. now exists "", b.
  - cbn [strings.index_from] in H. unfold strings.HasPrefix in H.
    destruct (String.prefix sub (String c s)) eqn:Hp.
    + destruct (prefix_split _ _ Hp) as [b Hb]. now exists "", b.
    + destruct (IH _ H) as (a & b & ->). now exists (String c a), b.
Qed.

(** [strings.Contains] finds a substring exactly when there is one. *)
Lemma Contains_iff (s sub : string) :
  strings.Contains s sub = true <-> exists a b, s = a ++ sub ++ b.
Proof.
  unfold strings.Contains, strings.Index. split.
  - intros H. apply Z.leb_le in H. now apply index_from_split in H.
  - intros (a & b & ->). apply Z.leb_le. apply index_from_found. lia.
Qed.

(** X6: the classifiers are substring tests on the text of the error:
    [isContainerNotFoundError] holds exactly of a non-nil error whose
    text has [No such container] somewhere in it, [isPathNotFound] of
    one whose text has [No such container:path] somewhere in it; a nil
    error is neither. *)
Theorem classifiers_substring (err : option error) :
  (isContainerNotFoundError err = true <->
   exists e a b, err = Some e /\ Error e = a ++ "No such container" ++ b)
  /\ (isPathNotFound err = true <->
      exists e a b,
        err = Some e /\ Error e = a ++ "No such container:path" ++ b).
Proof.
  destruct err as [e|]; cbn [isContainerNotFoundError isPathNotFound].
  - rewrite !Contains_iff. split; split.
    + intros (a & b & H). now exists e, a, b.
    + intros (e' & a & b & He & H). injection He as <-. now exists a, b.
    + intros (a & b & H). now exists e, a, b.
    + intros (e' & a & b & He & H). injection He as <-. now exists a, b.
  - split; split; try discriminate; intros (e & _ & _ & H & _);
      discriminate H.
Qed.

Lemma classifiers_substring_witness :
  exists e a b,
    Some (sample.noSuchContainer "web2") = Some e
    /\ Error e = a ++ "No such container" ++ b.
Proof.
  apply (proj1 (proj1 (classifiers_substring
                         (Some (sample.noSuchContainer "web2"))))).
  reflexivity.
Defined.

(** X7: wrapping keeps the classification: an error that a classifier
    accepts is still accepted after any number of [Errorf] contexts
    have been put before it.  So an error of [Start] for a container
    that has gone since the inspection is one
    [isContainerNotFoundError] accepts, though [FindEnvironment] returns
    it as it is and not as [ErrMissingContainer]. *)
Theorem classification_survives_wrapping (d : docker.Daemon) (n : string)
  (l : docker.log) (c : types.ContainerJSON) (e : error) :
  (forall ctx e0,
      (isContainerNotFoundError (Some e0) = true ->
       isContainerNotFoundError (Some (Errorf ctx e0)) = true)
      /\ (isPathNotFound (Some e0) = true ->
          isPathNotFound (Some (Errorf ctx e0)) = true))
  /\ (docker.inspect d (l ++ [docker.NewClient])%list n = (c, None) ->
      docker.start d
        (l ++ [docker.NewClient; docker.Inspect n; docker.NewClient])%list n
      = Some e ->
      isContainerNotFoundError (Some e) = true ->
      exists e',
        fst (FindEnvironment d n l) = (None, Some e')
        /\ e' <> ErrMissingContainer
        /\ isContainerNotFoundError (Some e') = true).
Proof.
  assert (Hw : forall ctx s sub,
             strings.Contains s sub = true ->
             strings.Contains (ctx ++ s) sub = true).
  { intros ctx s sub H. apply Contains_iff in H as (a & b & ->).
    apply Contains_iff. exists (ctx ++ a), b.
    clear. induction ctx as [|x ctx IH]; [reflexivity|].
    cbn [String.append]. now rewrite IH. }
  split.
  - intros ctx e0. cbn [isContainerNotFoundError isPathNotFound Error].
    split; apply Hw.
  - intros Hi Hs Hc. rewrite FindEnvironment_eq, Hi.
    cbn [isContainerNotFoundError fst]. rewrite Hs.
    eexists. split; [reflexivity|]. split; [discriminate|].
    cbn [isContainerNotFoundError Error]. now apply Hw.
Qed.

Lemma classification_survives_wrapping_witness :
  exists e',
    fst (FindEnvironment faulty.vanishing "web1" []) = (None, Some e')
    /\ e' <> ErrMissingContainer
    /\ isContainerNotFoundError (Some e') = true.
Proof.
  apply (proj2 (classification_survives_wrapping faulty.vanishing "web1" []
                  sample.web1 (sample.noSuchContainer "web1"))).
  - reflexivity.
  - reflexivity.
  - reflexivity.
Defined.

(** ** Further properties of [readPath] *)

Section MoreExtraction.

Variable allowedFormats : tar.Header -> option error.
Variable d : docker.Daemon.

Local Open Scope list_scope.

(** X8: a copy error that is not a missing path is returned wrapped in
    a context that names the requested path: the text of the returned
    error is [failed to get reader for path], the path in quotes, a
    colon and the text of the copy error.  There is no archive, and no
    body is closed. *)
Theorem readPath_copy_error (e : Environment) (path : string)
  (l : docker.log) (err : error) :
  docker.copy d (l ++ [docker.NewClient]) (name e) path = inr err ->
  isPathNotFound (Some err) = false ->
  exists err',
    readPath allowedFormats d e path l
    = ((None, Some err'),
       l ++ [docker.NewClient; docker.CopyFrom (name e) path;
             docker.ClientClose])
    /\ Error err'
       = ("failed to get reader for path '" ++ path ++ "': " ++ Error err)%string
    /\ err' <> errNoSuchFile.
Proof.
  intros Hc Hp. eexists. split; [|split].
  - now rewrite readPath_eq, Hc, Hp.
  - cbn [Error]. now rewrite !append_assoc.
  - discriminate.
Qed.

(** X9: [readPath] and [FindEnvironment] return a result or an error,
    never both and never neither. *)
Theorem result_xor_error (e : Environment) (n path : string)
  (l : docker.log) :
  (match fst (readPath allowedFormats d e path l) with
   | (Some _, None) | (None, Some _) => True
   | _ => False
   end)
  /\ (match fst (FindEnvironment d n l) with
      | (Some _, None) | (None, Some _) => True
      | _ => False
      end).
Proof.
  split.
  - destruct (readPath_archive_xor_error allowedFormats d e path l)
      as [[buf ->]|[err [-> _]]]; exact I.
  - rewrite FindEnvironment_eq.
    destruct (docker.inspect d _ n) as [c [err|]].
    + destruct (isContainerNotFoundError (Some err)); exact I.
    + cbn [isContainerNotFoundError fst].
      destruct (docker.start d _ n); exact I.
Qed.

(** X10: [readPath] returns an archive only when every payload of the
    stream is whole: each ends with [io.EOF], and an entry whose header
    declares a payload of [n >= 0] bytes (none for the types that carry
    no payload) has delivered exactly [n] bytes. *)
Theorem readPath_payloads_whole (e : Environment) (path : string)
  (l l' : docker.log) (buf : tar.Archive) (rdr : tar.Stream)
  (ent : tar.Entry) :
  readPath allowedFormats d e path l = ((Some buf, None), l') ->
  docker.copy d (l ++ [docker.NewClient]) (name e) path = inl rdr ->
  In ent (tar.entries rdr) ->
  tar.dataEnd ent = EOF
  /\ (0 <= tar.payloadSize (tar.hdr ent) ->
      Z.of_nat (List.length (tar.data ent)) = tar.payloadSize (tar.hdr ent)).
Proof.
  intros H Hc Hin.
  apply readPath_ok in H as (rdr' & Hc' & Hb & _).
  rewrite Hc in Hc'. injection Hc' as <-.
  apply readPath_body_ok in Hb as (_ & _ & _ & Hends & Hlen).
  rewrite Forall_forall in Hends, Hlen. split; [now apply Hends|].
  exact (Hlen ent Hin).
Qed.

End MoreExtraction.

(** X11: the renaming only takes away from the front: the new name is
    what is left of the old one behind some prefix, so it is never
    longer, and every other field of the header is kept. *)
Theorem rename_suffix (base : string) (hdr : tar.Header) :
  (exists pre, tar.Name hdr = pre ++ tar.Name (rename base hdr))
  /\ (String.length (tar.Name (rename base hdr))
      <= String.length (tar.Name hdr))%nat
  /\ same_except_Name hdr (rename base hdr).
Proof.
  destruct (rename_spec base hdr) as [Hrun _].
  destruct (LeadingRun_suffix _ _ _ Hrun) as [pre Hpre].
  split; [now exists pre|]. split.
  - pose proof (f_equal String.length Hpre) as HL.
    rewrite append_length in HL. lia.
  - repeat split.
Qed.

Section FirstFailureOnly.

Variable allowedFormats : tar.Header -> option error.

Local Open Scope list_scope.

Lemma readPath_loop_extend (base : string) (es more : list tar.Entry)
  (fin : error) (tw : tar.Writer) (err : error) :
  readPath_loop allowedFormats base es EOF tw = inr err ->
  readPath_loop allowedFormats base (es ++ more) fin tw = inr err.
Proof.
  revert tw. induction es as [|x es IH]; intros tw H; [discriminate H|].
  cbn [app readPath_loop] in *.
  destruct (tar.WriteHeader allowedFormats tw (rename base (tar.hdr x)))
    as [[ew|] tw1]; [exact H|].
  assert (Hcopy : forall r1 r2,
             fst (io.Copy tw1 {| tar.curr := (tar.data x, tar.dataEnd x);
                                 tar.rest := r1 |})
             = fst (io.Copy tw1 {| tar.curr := (tar.data x, tar.dataEnd x);
                                   tar.rest := r2 |})).
  { intros r1 r2. unfold io.Copy. cbn [tar.curr tar.rest].
    destruct (tar.data x); [destruct (is_EOF _); reflexivity|].
    destruct (tar.Write tw1 _) as [[?|] ?]; [reflexivity|].
    destruct (is_EOF _); reflexivity. }
  specialize (Hcopy {| tar.entries := es; tar.final := EOF |}
                    {| tar.entries := es ++ more; tar.final := fin |}).
  destruct (io.Copy tw1 {| tar.curr := _;
                           tar.rest := {| tar.entries := es;
                                          tar.final := EOF |} |})
    as [[c1 tw2] tr2].
  destruct (io.Copy tw1 {| tar.curr := _;
                           tar.rest := {| tar.entries := es ++ more;
                                          tar.final := fin |} |})
    as [[c1' tw2'] tr2'].
  cbn [fst] in Hcopy. injection Hcopy as <- <-.
  destruct c1 as [ec|]; [exact H | now apply IH].
Qed.

(** X12: nothing behind the first failing entry is looked at.  When
    [readPath] fails on a stream that ends cleanly, with the error of a
    header write or of a payload copy, it fails with the same error on
    every stream that starts with the same entries, however it goes
    on. *)
Theorem readPath_stops_at_first_failure (path ctx : string)
  (es more : list tar.Entry) (fin err : error) :
  ctx = phase_context WritingHeader \/ ctx = phase_context CopyingPayload ->
  readPath_body allowedFormats path {| tar.entries := es; tar.final := EOF |}
  = (None, Some (Errorf ctx err)) ->
  readPath_body allowedFormats path
    {| tar.entries := es ++ more; tar.final := fin |}
  = (None, Some (Errorf ctx err)).
Proof.
  intros Hctx. unfold readPath_body, readPath_finish.
  cbn [tar.NewReader tar.rest tar.entries tar.final].
  destruct (readPath_loop allowedFormats (filepath.Base path) es EOF
              tar.NewWriter) as [tw|e0] eqn:Hl.
  - destruct (tar.Close tw) as [[ec|] tw']; [|discriminate].
    intros H. injection H as H _.
    destruct Hctx as [ -> | -> ]; discriminate H.
  - intros H. injection H as ->.
    now rewrite (readPath_loop_extend _ _ more fin _ _ Hl).
Qed.

End FirstFailureOnly.

(** ** The prefix [base/] *)

Lemma lor_shiftl_add (hi k lo : Z) :
  0 <= k -> 0 <= lo < 2 ^ k -> Z.lor (Z.shiftl hi k) lo = hi * 2 ^ k + lo.
Proof.
  intros Hk Hlo.
  assert (Hland : Z.land (Z.shiftl hi k) lo = 0).
  { apply Z.bits_inj'. intros n Hn. rewrite Z.land_spec, Z.bits_0.
    destruct (Z.ltb_spec n k) as [Hlt|Hge].
    - now rewrite Z.shiftl_spec_low.
    - destruct (Z.eq_dec lo 0) as [ -> |Hne].
      + rewrite Z.bits_0. apply andb_false_r.
      + rewrite (Z.bits_above_log2 lo n); [apply andb_false_r | lia |].
        apply Z.lt_le_trans with k; [|exact Hge].
        apply Z.log2_lt_pow2; lia. }
  rewrite <- Z.lxor_lor, <- Z.add_nocarry_lxor by exact Hland.
  now rewrite Z.shiftl_mul_pow2.
Qed.

Lemma byte_of_eq (v : Z) (c : ascii) : v = byte_val c -> byte_of v = c.
Proof. intros ->. apply byte_of_val. Qed.

(** The bytes [utf8.EncodeRune] writes, in arithmetic. *)
Lemma low_byte_mod (x : Z) :
  0 <= x -> byte_val (utf8.low_byte x) = x mod 256.
Proof.
  intros Hx. unfold utf8.low_byte.
  rewrite (land_ones_mod _ 8) by (lia || reflexivity).
  apply byte_val_of. apply Z.mod_pos_bound. lia.
Qed.

Lemma trail_byte (x : Z) (c : ascii) :
  0 <= x -> byte_val c = 128 + x mod 64 ->
  byte_of (Z.lor utf8.tx (Z.land (byte_val (utf8.low_byte x)) utf8.maskx)) = c.
Proof.
  intros Hx Hc. apply byte_of_eq. rewrite low_byte_mod by exact Hx.
  rewrite (land_ones_mod _ 6) by (lia || reflexivity).
  change utf8.tx with (Z.shiftl 2 6).
  rewrite lor_shiftl_add by (try lia; apply Z.mod_pos_bound; lia).
  rewrite Hc. Z.to_euclidean_division_equations. lia.
Qed.

Lemma lead_byte (t h k x : Z) (c : ascii) :
  t = Z.shiftl h k -> 0 <= h -> 0 <= k -> 0 <= x < 2 ^ k ->
  byte_val c = h * 2 ^ k + x ->
  byte_of (Z.lor t (byte_val (utf8.low_byte x))) = c.
Proof.
  intros -> Hh Hk Hx Hc. apply byte_of_eq.
  rewrite low_byte_mod by lia.
  pose proof (byte_val_range c) as Hr.
  assert (Hm : 0 <= h * 2 ^ k) by (apply Z.mul_nonneg_nonneg; lia).
  rewrite Z.mod_small by lia.
  rewrite lor_shiftl_add by lia. now rewrite Hc.
Qed.

Lemma lor_mul_add (m k lo : Z) :
  0 <= k -> 0 <= lo < 2 ^ k -> Z.lor (m * 2 ^ k) lo = m * 2 ^ k + lo.
Proof.
  intros Hk Hlo. rewrite <- lor_shiftl_add by assumption.
  now rewrite Z.shiftl_mul_pow2.
Qed.

(** The value the decoder assembles from the payload bits. *)
Lemma rune_of_2 (a b : Z) :
  0 <= b < 64 -> Z.lor (Z.shiftl a 6) b = a * 64 + b.
Proof. intros Hb. now rewrite lor_shiftl_add by lia. Qed.

Lemma rune_of_3 (a b c : Z) :
  0 <= b < 64 -> 0 <= c < 64 ->
  Z.lor (Z.lor (Z.shiftl a 12) (Z.shiftl b 6)) c = a * 4096 + b * 64 + c.
Proof.
  intros Hb Hc. rewrite (Z.shiftl_mul_pow2 b 6) by lia.
  rewrite lor_shiftl_add by lia.
  replace (a * 2 ^ 12 + b * 2 ^ 6) with ((a * 64 + b) * 2 ^ 6) by lia.
  rewrite lor_mul_add by lia. lia.
Qed.

Lemma rune_of_4 (a b c e : Z) :
  0 <= b < 64 -> 0 <= c < 64 -> 0 <= e < 64 ->
  Z.lor (Z.lor (Z.lor (Z.shiftl a 18) (Z.shiftl b 12)) (Z.shiftl c 6)) e
  = a * 262144 + b * 4096 + c * 64 + e.
Proof.
  intros Hb Hc He.
  rewrite (Z.shiftl_mul_pow2 b 12), (Z.shiftl_mul_pow2 c 6) by lia.
  rewrite lor_shiftl_add by lia.
  replace (a * 2 ^ 18 + b * 2 ^ 12) with ((a * 64 + b) * 2 ^ 12) by lia.
  rewrite lor_mul_add by lia.
  replace ((a * 64 + b) * 2 ^ 12 + c * 2 ^ 6)
    with (((a * 64 + b) * 64 + c) * 2 ^ 6) by lia.
  rewrite lor_mul_add by lia. lia.
Qed.

(** Encoding gives back the bytes of a sequence the decoder accepts. *)
Lemma encode_2 (b0 b1 : ascii) (r : Z) :
  0xC2 <= byte_val b0 <= 0xDF -> 0x80 <= byte_val b1 <= 0xBF ->
  r = (byte_val b0 - 192) * 64 + (byte_val b1 - 128) ->
  utf8.EncodeRune r = String b0 (String b1 "") /\ utf8.ValidRune r = true.
Proof.
  intros H0 H1 Hr. split.
  - unfold utf8.EncodeRune, utf8.rune1Max, utf8.rune2Max.
    replace ((0 <=? r) && (r <=? 127)) with false by lia.
    replace ((0 <=? r) && (r <=? 2047)) with true by lia.
    rewrite Z.shiftr_div_pow2 by lia. f_equal; [|f_equal].
    + apply (lead_byte utf8.t2 3 6); try reflexivity; try lia;
        Z.to_euclidean_division_equations; lia.
    + apply trail_byte; [lia|]. Z.to_euclidean_division_equations. lia.
  - unfold utf8.ValidRune, utf8.surrogateMin.
    now replace ((0 <=? r) && (r <? 55296)) with true by lia.
Qed.

Lemma encode_3 (b0 b1 b2 : ascii) (r : Z) :
  0xE0 <= byte_val b0 <= 0xEF -> 0x80 <= byte_val b1 <= 0xBF ->
  0x80 <= byte_val b2 <= 0xBF ->
  (byte_val b0 = 0xE0 -> 0xA0 <= byte_val b1) ->
  (byte_val b0 = 0xED -> byte_val b1 <= 0x9F) ->
  r = (byte_val b0 - 224) * 4096 + (byte_val b1 - 128) * 64
      + (byte_val b2 - 128) ->
  utf8.EncodeRune r = String b0 (String b1 (String b2 ""))
  /\ utf8.ValidRune r = true.
Proof.
  intros H0 H1 H2 HE0 HED Hr.
  assert (Hrange : 0x800 <= r <= 0xFFFF) by lia.
  assert (Hsur : r < 0xD800 \/ 0xDFFF < r) by lia.
  split.
  - unfold utf8.EncodeRune, utf8.rune1Max, utf8.rune2Max, utf8.rune3Max,
      utf8.MaxRune, utf8.surrogateMin, utf8.surrogateMax, utf8.encode3.
    replace ((0 <=? r) && (r <=? 127)) with false by lia.
    replace ((0 <=? r) && (r <=? 2047)) with false by lia.
    replace ((r <? 0) || (1114111 <? r)
             || ((55296 <=? r) && (r <=? 57343))) with false by lia.
    replace (r <=? 65535) with true by lia.
    rewrite !Z.shiftr_div_pow2 by lia. f_equal; [|f_equal; [|f_equal]].
    + apply (lead_byte utf8.t3 14 4); try reflexivity; try lia;
        Z.to_euclidean_division_equations; lia.
    + apply trail_byte; Z.to_euclidean_division_equations; lia.
    + apply trail_byte; [lia|]. Z.to_euclidean_division_equations. lia.
  - unfold utf8.ValidRune, utf8.surrogateMin, utf8.surrogateMax, utf8.MaxRune.
    destruct Hsur.
    + now replace ((0 <=? r) && (r <? 55296)) with true by lia.
    + replace ((0 <=? r) && (r <? 55296)) with false by lia.
      now replace ((57343 <? r) && (r <=? 1114111)) with true by lia.
Qed.

Lemma encode_4 (b0 b1 b2 b3 : ascii) (r : Z) :
  0xF0 <= byte_val b0 <= 0xF4 -> 0x80 <= byte_val b1 <= 0xBF ->
  0x80 <= byte_val b2 <= 0xBF -> 0x80 <= byte_val b3 <= 0xBF ->
  (byte_val b0 = 0xF0 -> 0x90 <= byte_val b1) ->
  (byte_val b0 = 0xF4 -> byte_val b1 <= 0x8F) ->
  r = (byte_val b0 - 240) * 262144 + (byte_val b1 - 128) * 4096
      + (byte_val b2 - 128) * 64 + (byte_val b3 - 128) ->
  utf8.EncodeRune r = String b0 (String b1 (String b2 (String b3 "")))
  /\ utf8.ValidRune r = true.
Proof.
  intros H0 H1 H2 H3 HF0 HF4 Hr.
  assert (Hrange : 0x10000 <= r <= 0x10FFFF) by lia.
  split.
  - unfold utf8.EncodeRune, utf8.rune1Max, utf8.rune2Max, utf8.rune3Max,
      utf8.MaxRune, utf8.surrogateMin, utf8.surrogateMax.
    replace ((0 <=? r) && (r <=? 127)) with false by lia.
    replace ((0 <=? r) && (r <=? 2047)) with false by lia.
    replace ((r <? 0) || (1114111 <? r)
             || ((55296 <=? r) && (r <=? 57343))) with false by lia.
    replace (r <=? 65535) with false by lia.
    rewrite !Z.shiftr_div_pow2 by lia.
    f_equal; [|f_equal; [|f_equal; [|f_equal]]].
    + apply (lead_byte utf8.t4 30 3); try reflexivity; try lia;
        Z.to_euclidean_division_equations; lia.
    + apply trail_byte; Z.to_euclidean_division_equations; lia.
    + apply trail_byte; Z.to_euclidean_division_equations; lia.
    + apply trail_byte; [lia|]. Z.to_euclidean_division_equations. lia.
  - unfold utf8.ValidRune, utf8.surrogateMin, utf8.surrogateMax, utf8.MaxRune.
    replace ((0 <=? r) && (r <? 55296)) with false by lia.
    now replace ((57343 <? r) && (r <=? 1114111)) with true by lia.
Qed.

Ltac mask_to_mod :=
  repeat match goal with
  | |- context [Z.land ?x utf8.maskx] =>
      rewrite (land_ones_mod x 6 utf8.maskx) by (lia || reflexivity)
  | |- context [Z.land ?x utf8.mask2] =>
      rewrite (land_ones_mod x 5 utf8.mask2) by (lia || reflexivity)
  | |- context [Z.land ?x utf8.mask3] =>
      rewrite (land_ones_mod x 4 utf8.mask3) by (lia || reflexivity)
  | |- context [Z.land ?x utf8.mask4] =>
      rewrite (land_ones_mod x 3 utf8.mask4) by (lia || reflexivity)
  end.

Lemma first_s3 (b : Z) : utf8.first b = utf8.s3 -> b <> 0xED.
Proof.
  intros H ->. vm_compute in H. discriminate H.
Qed.

(** A sequence of two bytes or more that the decoder accepts is the
    encoding of the rune it gives. *)
Lemma decode_encode (b : ascii) (t : string) (r : Z) (n : nat) :
  utf8.DecodeRuneInString (String b t) = (r, n) ->
  (2 <= n)%nat ->
  utf8.ValidRune r = true
  /\ utf8.RuneSelf <= r
  /\ String b t = utf8.EncodeRune r ++ drop n (String b t).
Proof.
  unfold utf8.DecodeRuneInString.
  change (String.length (String b t) <? 1)%nat with false. cbv iota.
  rewrite at_head.
  pose proof (byte_val_range b) as Hb.
  destruct t as [|b1 [|b2 [|b3 t]]];
    cbn [String.length at_ String.get];
    try pose proof (byte_val_range b1) as Hb1;
    try pose proof (byte_val_range b2) as Hb2;
    try pose proof (byte_val_range b3) as Hb3;
    first_case (byte_val b); eval_tables;
    unfold utf8.locb, utf8.hicb;
    repeat match goal with
           | |- context [(?x <? ?y)%nat] =>
               let v := eval vm_compute in (x <? y)%nat in
               change (x <? y)%nat with v
           | |- context [(?x <? ?y) || (?c <? ?e)] =>
               destruct ((x <? y) || (c <? e)) eqn:?
           end;
    intros Hd Hn; apply pair_equal_spec in Hd; destruct Hd as [<- <-];
    try lia.
  all: mask_to_mod.
  all: rewrite ?rune_of_2, ?rune_of_3, ?rune_of_4
    by (apply Z.mod_pos_bound; lia).
  all: cbn [drop].
  all: match goal with
       | |- _ /\ _ <= ?r /\ String ?c0 (String ?c1 (String ?c2 (String ?c3 _)))
                             = utf8.EncodeRune ?r ++ _ =>
           destruct (encode_4 c0 c1 c2 c3 r) as [-> ->];
           [..| split; [reflexivity | split; [|reflexivity]]]
       | |- _ /\ _ <= ?r /\ String ?c0 (String ?c1 (String ?c2 _))
                             = utf8.EncodeRune ?r ++ _ =>
           destruct (encode_3 c0 c1 c2 r) as [-> ->];
           [..| split; [reflexivity | split; [|reflexivity]]]
       | |- _ /\ _ <= ?r /\ String ?c0 (String ?c1 _)
                             = utf8.EncodeRune ?r ++ _ =>
           destruct (encode_2 c0 c1 r) as [-> ->];
           [..| split; [reflexivity | split; [|reflexivity]]]
       end.
  all: unfold utf8.RuneSelf.
  all: try (Z.to_euclidean_division_equations; lia).
  all: intros He; apply first_s3 in Hf0; contradiction.
Qed.

(** A rune of one byte is that byte, below [RuneSelf], or
    [RuneError]. *)
Lemma decode_one (b : ascii) (t : string) (r : Z) :
  utf8.DecodeRuneInString (String b t) = (r, 1%nat) ->
  (r = byte_val b /\ byte_val b < utf8.RuneSelf) \/ r = utf8.RuneError.
Proof.
  unfold utf8.DecodeRuneInString.
  change (String.length (String b t) <? 1)%nat with false. cbv iota.
  rewrite at_head.
  first_case (byte_val b); eval_tables; split_ifs;
    intros Hd; apply pair_equal_spec in Hd; destruct Hd as [<- Hn];
    try discriminate Hn; auto.
Qed.

Lemma rangeRuneError_shift (fuel : nat) (s : string) (i j : Z) :
  0 <= i -> 0 <= j ->
  (0 <=? strings.rangeRuneError fuel i s)
  = (0 <=? strings.rangeRuneError fuel j s).
Proof.
  revert s i j. induction fuel as [|fuel IH]; intros s i j Hi Hj.
  - reflexivity.
  - destruct s as [|b t]; [reflexivity|]. cbn [strings.rangeRuneError].
    destruct (utf8.DecodeRuneInString (String b t)) as [r n].
    destruct (r =? utf8.RuneError); [lia|]. apply IH; lia.
Qed.

(** Whether a [range] over [s] meets [RuneError]: the test of
    [strings.IndexRune] on that rune. *)
Lemma rangeRuneError_step (b : ascii) (t : string) (r : Z) (n : nat) :
  utf8.DecodeRuneInString (String b t) = (r, n) ->
  (0 <=? strings.rangeRuneError (String.length (String b t)) 0 (String b t))
  = (r =? utf8.RuneError)
    || (0 <=? strings.rangeRuneError
                (String.length (drop n (String b t))) 0
                (drop n (String b t))).
Proof.
  intros Hd. pose proof (decode_width b t) as Hw. rewrite Hd in Hw.
  cbn [snd] in Hw.
  cbn [String.length strings.rangeRuneError]. rewrite Hd.
  destruct (r =? utf8.RuneError); [reflexivity|]. cbn [orb].
  rewrite rangeRuneError_fuel
    by (rewrite length_drop; simpl String.length in *; lia).
  apply rangeRuneError_shift; lia.
Qed.

Lemma IndexByte_found (pre : string) (b : ascii) (t : string) :
  (0 <=? strings.IndexByte (pre ++ String b t) b) = true.
Proof.
  induction pre as [|c pre IH]; cbn [String.append]; rewrite IndexByte_cons.
  - now rewrite Ascii.eqb_refl.
  - rewrite IH. apply orb_true_r.
Qed.

(** Every rune that a [range] over a string gives is a rune the string
    contains, for [strings.ContainsRune]. *)
Lemma ContainsRune_self (pre : string) (b : ascii) (t : string)
  (r : Z) (n : nat) :
  utf8.DecodeRuneInString (String b t) = (r, n) ->
  ((0 <=? strings.rangeRuneError (String.length (String b t)) 0 (String b t))
   = true ->
   (0 <=? strings.rangeRuneError (String.length (pre ++ String b t)) 0
            (pre ++ String b t)) = true) ->
  strings.ContainsRune (pre ++ String b t) r = true.
Proof.
  intros Hd Hrange. unfold strings.ContainsRune, strings.IndexRune.
  pose proof (decode_width b t) as Hw. rewrite Hd in Hw. cbn [snd] in Hw.
  destruct (Nat.eq_dec n 1) as [ -> |Hn].
  - destruct (decode_one b t r Hd) as [[-> Hb]| ->].
    + pose proof (byte_val_range b).
      replace ((0 <=? byte_val b) && (byte_val b <? utf8.RuneSelf))
        with true by lia.
      rewrite low_byte_val. apply IndexByte_found.
    + cbn. apply Hrange. rewrite (rangeRuneError_step b t _ _ Hd).
      reflexivity.
  - destruct (decode_encode b t r n Hd) as (Hv & Hr & Henc); [lia|].
    replace ((0 <=? r) && (r <? utf8.RuneSelf)) with false by lia.
    destruct (r =? utf8.RuneError) eqn:He.
    + apply Hrange. rewrite (rangeRuneError_step b t _ _ Hd), He.
      reflexivity.
    + rewrite Hv. cbn [negb]. rewrite Henc. apply Z.leb_le.
      unfold strings.Index. apply index_from_found. lia.
Qed.

(** Behind a ['/'] the decoder does not look. *)
Lemma decode_append_slash_more (b : ascii) (t more : string) :
  utf8.DecodeRuneInString (String b t ++ "/" ++ more)
  = utf8.DecodeRuneInString (String b t).
Proof.
  unfold utf8.DecodeRuneInString.
  change ((String b t ++ "/" ++ more)%string)
    with (String b (t ++ "/" ++ more)).
  change (String.length (String b (t ++ "/" ++ more)) <? 1)%nat with false.
  change (String.length (String b t) <? 1)%nat with false.
  cbv iota. rewrite !at_head.
  destruct t as [|b1 [|b2 [|b3 t]]];
    cbn [String.append String.length at_ String.get];
    try pose proof (byte_val_range b1) as H1;
    try pose proof (byte_val_range b2) as H2;
    try pose proof (byte_val_range b3) as H3;
    change (byte_val "/") with 47;
    first_case (byte_val b); eval_tables;
    unfold utf8.locb, utf8.hicb;
    repeat match goal with
           | |- context [(?a <? ?b)%nat] =>
               let v := eval vm_compute in (a <? b)%nat in
               change (a <? b)%nat with v
           | |- context [(?a <? ?b) || (?c <? ?d)] =>
               destruct ((a <? b) || (c <? d)) eqn:?
           end;
    try reflexivity; try lia;
    match goal with
    | |- (if ?c then _ else _) = _ => destruct c; reflexivity
    end.
Qed.

Lemma drop_split (n : nat) (s : string) : exists p, s = p ++ drop n s.
Proof.
  revert s. induction n as [|n IH]; intros s.
  - now exists "".
  - destruct s as [|c s]; [now exists ""|].
    destruct (IH s) as [p Hp]. exists (String c p).
    cbn [String.append drop]. now rewrite <- Hp.
Qed.

Lemma LeadingRun_trans (inset : Z -> bool) (s m out : string) :
  LeadingRun inset s m -> LeadingRun inset m out -> LeadingRun inset s out.
Proof.
  induction 1 as [s|s r n m Hs Hd Hin _ IH]; intros H2; [exact H2|].
  apply run_step with (r := r) (n := n); auto.
Qed.

Lemma append_nil_r (s : string) : s ++ "" = s.
Proof. induction s as [|c s IH]; [reflexivity|]. simpl. now rewrite IH. Qed.

(** The runes of the basename, met at the front of a name, are all
    removed: the decoder goes through [u] in [u ++ tail] as it does in
    [u ++ "/"], and every rune on the way is in the cutset. *)
Lemma LeadingRun_through (c tail : string) :
  (forall b t, utf8.DecodeRuneInString (String b t ++ tail)
               = utf8.DecodeRuneInString (String b t ++ "/")) ->
  forall (fuel : nat) (u pre : string),
    (String.length u <= fuel)%nat ->
    c = pre ++ u ++ "/" ->
    ((0 <=? strings.rangeRuneError (String.length (u ++ "/")) 0 (u ++ "/"))
     = true ->
     (0 <=? strings.rangeRuneError (String.length c) 0 c) = true) ->
    LeadingRun (strings.ContainsRune c) (u ++ tail) tail.
Proof.
  intros Htail. induction fuel as [|fuel IH]; intros u pre Hlen Hc Hrange.
  - destruct u; [apply run_stop | simpl in Hlen; lia].
  - destruct u as [|b t]; [apply run_stop|].
    pose proof (decode_width b t) as Hw.
    destruct (utf8.DecodeRuneInString (String b t)) as [r n] eqn:Hd.
    cbn [snd] in Hw.
    assert (Hd' : utf8.DecodeRuneInString (String b (t ++ "/")) = (r, n)).
    { change (String b (t ++ "/")) with (String b t ++ "/").
      now rewrite decode_append_slash. }
    apply run_step with (r := r) (n := n).
    + discriminate.
    + now rewrite Htail, decode_append_slash.
    + rewrite Hc. change (String b t ++ "/") with (String b (t ++ "/")).
      apply ContainsRune_self with (n := n); [exact Hd'|].
      rewrite Hc in Hrange. exact Hrange.
    + rewrite drop_append by lia.
      destruct (drop_split n (String b t)) as [p Hp].
      apply IH with (pre := pre ++ p).
      * rewrite length_drop. simpl String.length in *. lia.
      * rewrite Hc, append_assoc. f_equal.
        rewrite <- append_assoc. now rewrite <- Hp.
      * intros H. apply Hrange.
        change (String b t ++ "/") with (String b (t ++ "/")).
        rewrite (rangeRuneError_step b (t ++ "/") r n Hd').
        change (String b (t ++ "/")) with (String b t ++ "/").
        rewrite drop_append by lia. rewrite H. apply orb_true_r.
Qed.

Lemma LeadingRun_prefix (base rest : string) :
  LeadingRun (strings.ContainsRune (base ++ "/")) (base ++ "/" ++ rest) rest.
Proof.
  apply LeadingRun_trans with (m := "/" ++ rest).
  - apply LeadingRun_through
      with (fuel := String.length base) (pre := "").
    + intros b t. now rewrite decode_append_slash_more, decode_append_slash.
    + lia.
    + reflexivity.
    + auto.
  - apply run_step with (r := byte_val "/") (n := 1%nat).
    + discriminate.
    + apply (decode_ascii "/" rest). reflexivity.
    + rewrite ContainsRune_append_slash. unfold trimSet.
      rewrite Z.eqb_refl. apply orb_true_r.
    + apply run_stop.
Qed.

Lemma LeadingRun_base (base : string) :
  LeadingRun (strings.ContainsRune (base ++ "/")) base "".
Proof.
  rewrite <- (append_nil_r base) at 2.
  apply LeadingRun_through with (fuel := String.length base) (pre := "").
  - intros b t. now rewrite append_nil_r, decode_append_slash.
  - lia.
  - reflexivity.
  - auto.
Qed.

Lemma TrimLeft_prefix (base rest : string) :
  strings.TrimLeft (base ++ "/" ++ rest) (base ++ "/")
  = strings.TrimLeft rest (base ++ "/").
Proof.
  apply TrimmedLeft_unique
    with (inset := strings.ContainsRune (base ++ "/"))
         (s := base ++ "/" ++ rest).
  - apply TrimLeft_spec.
  - destruct (TrimLeft_spec rest (base ++ "/")) as [Hrun Hout].
    split; [|exact Hout].
    apply LeadingRun_trans with (m := rest);
      [apply LeadingRun_prefix | exact Hrun].
Qed.

(** X13: a name that starts with the basename and a ['/'] loses both,
    whole, whatever bytes the basename is made of: trimming [base/rest]
    is trimming [rest]. *)
Theorem TrimLeft_strips_prefix (base rest : string) :
  strings.TrimLeft (base ++ "/" ++ rest) (base ++ "/")
  = strings.TrimLeft rest (base ++ "/")
  /\ exists pre,
       rest = pre ++ strings.TrimLeft (base ++ "/" ++ rest) (base ++ "/").
Proof.
  rewrite TrimLeft_prefix. split; [reflexivity|].
  destruct (TrimLeft_spec rest (base ++ "/")) as [Hrun _].
  exact (LeadingRun_suffix _ _ _ Hrun).
Qed.

(** X14: the entry [base/rest] gets the name [rest], as the comment on
    [readPath] has it, exactly when [rest] is empty or starts with a
    character that is neither a character of the basename nor ['/'];
    otherwise characters of [rest] are lost. *)
Theorem rename_relative_name (base rest : string) (hdr : tar.Header) :
  tar.Name hdr = base ++ "/" ++ rest ->
  (tar.Name (rename base hdr) = rest <-> StartsOutside (trimSet base) rest).
Proof.
  intros Hn. unfold rename. cbn [tar.set_Name tar.Name].
  rewrite Hn, TrimLeft_prefix.
  assert (Hset : StartsOutside (trimSet base) rest
                 <-> StartsOutside (strings.ContainsRune (base ++ "/")) rest).
  { unfold StartsOutside. now rewrite ContainsRune_append_slash. }
  rewrite Hset. split.
  - intros H. rewrite <- H. apply TrimLeft_spec.
  - apply TrimLeft_fixed.
Qed.

(** X15: a name that is the basename, with or without a ['/'] behind
    it, is trimmed to nothing: the entry of the requested directory
    itself and the entry of a requested single file come out with the
    empty name. *)
Theorem TrimLeft_basename (base : string) :
  strings.TrimLeft base (base ++ "/") = ""
  /\ strings.TrimLeft (base ++ "/") (base ++ "/") = "".
Proof.
  split.
  - apply TrimmedLeft_unique
      with (inset := strings.ContainsRune (base ++ "/")) (s := base).
    + apply TrimLeft_spec.
    + split; [apply LeadingRun_base | now left].
  - pose proof (TrimLeft_prefix base "") as H.
    cbn [String.append] in H. rewrite H.
    unfold strings.TrimLeft. reflexivity.
Qed.

Lemma rename_relative_name_witness :
  tar.Name (rename "logs" (sample.header tar.TypeReg "logs/a.log" 10))
  = "a.log".
Proof.
  apply (proj2 (rename_relative_name "logs" "a.log"
                  (sample.header tar.TypeReg "logs/a.log" 10) eq_refl)).
  right. reflexivity.
Defined.

(** ** The basename *)

(** X16: a ['/'] at the end of the requested path changes nothing: the
    basename is the same, and so is what [readPath] makes of a
    stream. *)
Theorem Base_trailing_separator (allowedFormats : tar.Header -> option error)
  (path : string) (rdr : tar.Stream) :
  path <> "" ->
  filepath.Base (path ++ "/") = filepath.Base path
  /\ readPath_body allowedFormats (path ++ "/") rdr
     = readPath_body allowedFormats path rdr.
Proof.
  intros Hp.
  assert (HB : filepath.Base (path ++ "/") = filepath.Base path).
  { unfold filepath.Base. rewrite append_length.
    change (String.length "/") with 1%nat. rewrite Nat.add_1_r.
    cbn [Nat.eqb filepath.stripTrailingSeparators].
    rewrite at_append_end.
    change (filepath.IsPathSeparator (byte_val "/")) with true. cbv iota.
    rewrite stripTrailingSeparators_append by lia.
    destruct path as [|c p]; [congruence | reflexivity]. }
  split; [exact HB|]. unfold readPath_body. now rewrite HB.
Qed.

Lemma Base_trailing_separator_witness :
  filepath.Base ("/data/logs" ++ "/") = filepath.Base "/data/logs"
  /\ readPath_body sample.allowedFormats ("/data/logs" ++ "/") sample.logs
     = readPath_body sample.allowedFormats "/data/logs" sample.logs.
Proof.
  apply (Base_trailing_separator sample.allowedFormats "/data/logs"
           sample.logs).
  discriminate.
Defined.

(** X17: the basename is never empty, and it holds no ['/'] unless it
    is the root ["/"] itself. *)
Theorem Base_no_separator (path : string) :
  filepath.Base path <> ""
  /\ (filepath.Base path = "/"
      \/ forall j : nat,
           (j < String.length (filepath.Base path))%nat ->
           at_ (filepath.Base path) j <> byte_val "/").
Proof.
  unfold filepath.Base.
  destruct (String.length path =? 0)%nat.
  { split; [discriminate|]. right. intros [|j] Hj; [discriminate|].
    simpl in Hj. lia. }
  set (p := filepath.stripTrailingSeparators path (String.length path)).
  destruct (lastSeparator_spec p (String.length p)) as [Hi Hafter].
  set (i := filepath.lastSeparator p (String.length p)) in *.
  set (r := if 0 <=? i then drop (Z.to_nat (i + 1)) p else p).
  destruct (String.length r =? 0)%nat eqn:Hr.
  { split; [discriminate | now left]. }
  split.
  - intros ->. discriminate Hr.
  - right. intros j Hj He.
    assert (Hsep : filepath.IsPathSeparator (at_ r j) = true).
    { unfold filepath.IsPathSeparator, filepath.Separator.
      apply Z.eqb_eq. exact He. }
    subst r. destruct (0 <=? i) eqn:Hpos.
    + rewrite at_drop in Hsep. rewrite length_drop in Hj.
      rewrite Hafter in Hsep; [discriminate|]. lia.
    + rewrite Hafter in Hsep; [discriminate|]. lia.
Qed.

(** ** One container *)

(** X18: an operation talks to the daemon about one container only,
    the one whose name it was given or whose handle it was given: no
    request of [FindEnvironment], [Start], [Stop], [Remove], [Purge] or
    [readPath] names another container, whatever the daemon answers. *)
Theorem operations_about_one_container (d : docker.Daemon)
  (allowedFormats : tar.Header -> option error) (env : Environment)
  (n path : string) (l : docker.log) :
  (exists cs, snd (FindEnvironment d n l) = (l ++ cs)%list
              /\ forallb (about n) cs = true)
  /\ (exists cs, snd (Start d env l) = (l ++ cs)%list
                 /\ forallb (about (name env)) cs = true)
  /\ (exists cs, snd (Stop d env l) = (l ++ cs)%list
                 /\ forallb (about (name env)) cs = true)
  /\ (exists cs, snd (Remove d env l) = (l ++ cs)%list
                 /\ forallb (about (name env)) cs = true)
  /\ (exists cs, snd (Purge d env l) = (l ++ cs)%list
                 /\ forallb (about (name env)) cs = true)
  /\ (exists cs, snd (readPath allowedFormats d env path l) = (l ++ cs)%list
                 /\ forallb (about (name env)) cs = true).
Proof.
  assert (Hn : forall m, String.eqb m m = true) by apply String.eqb_refl.
  repeat split.
  - rewrite FindEnvironment_eq.
    destruct (docker.inspect d _ n) as [c [err|]].
    + destruct (isContainerNotFoundError (Some err));
        eexists; (split; [reflexivity|]); cbn; now rewrite ?Hn.
    + cbn [isContainerNotFoundError].
      eexists; (split; [reflexivity|]); cbn; now rewrite ?Hn.
  - rewrite Start_eq. eexists; (split; [reflexivity|]); cbn; now rewrite ?Hn.
  - rewrite Stop_eq. eexists; (split; [reflexivity|]); cbn; now rewrite ?Hn.
  - rewrite Remove_eq. eexists; (split; [reflexivity|]); cbn; now rewrite ?Hn.
  - unfold Purge, docker.bind, docker.ret. rewrite Stop_eq.
    destruct (docker.stop d _ _).
    + eexists; (split; [reflexivity|]); cbn; now rewrite ?Hn.
    + rewrite Remove_eq.
      destruct (docker.remove d _ _); cbn [snd]; rewrite <- app_assoc;
        eexists; (split; [reflexivity|]); cbn; now rewrite ?Hn.
  - rewrite readPath_eq.
    destruct (docker.copy d _ _ _);
      eexists; (split; [reflexivity|]); cbn; now rewrite ?Hn.
Qed.

(** ** Files and directories through the codec *)



(** ** The sample runtimes, again *)

Lemma readPath_copy_error_witness :
  exists err',
    readPath sample.allowedFormats faulty.down sample.env "/data/logs" []
    = ((None, Some err'),
       [docker.NewClient; docker.CopyFrom "web1" "/data/logs";
        docker.ClientClose])
    /\ Error err'
       = "failed to get reader for path '" ++ "/data/logs" ++ "': "
           ++ Error faulty.unreachable
    /\ err' <> errNoSuchFile.
Proof.
  apply (readPath_copy_error sample.allowedFormats faulty.down sample.env
           "/data/logs" [] faulty.unreachable).
  - reflexivity.
  - reflexivity.
Defined.

Lemma readPath_payloads_whole_witness :
  tar.dataEnd (sample.entry tar.TypeReg "logs/a.log" (repeat Byte.x61 10))
  = EOF
  /\ (0 <= tar.payloadSize
             (tar.hdr (sample.entry tar.TypeReg "logs/a.log"
                         (repeat Byte.x61 10))) ->
      Z.of_nat (List.length
                  (tar.data (sample.entry tar.TypeReg "logs/a.log"
                               (repeat Byte.x61 10))))
      = tar.payloadSize
          (tar.hdr (sample.entry tar.TypeReg "logs/a.log"
                      (repeat Byte.x61 10)))).
Proof.
  apply (readPath_payloads_whole sample.allowedFormats sample.daemon
           sample.env "/data/logs" []
           [docker.NewClient; docker.CopyFrom "web1" "/data/logs";
            docker.BodyClose; docker.ClientClose]
           {| tar.files :=
                [ (sample.header tar.TypeDir "" 0, []);
                  (sample.header tar.TypeReg "a.log" 10, repeat Byte.x61 10);
                  (sample.header tar.TypeReg "b.log" 20, repeat Byte.x62 20);
                  (sample.header tar.TypeReg "_extra" 5, repeat Byte.x63 5) ];
              tar.trailer := true |}
           sample.logs).
  - reflexivity.
  - reflexivity.
  - right. left. reflexivity.
Defined.

(** The copy of the second entry of [faulty.short] fails; what is put
    behind the two entries does not matter. *)
Lemma readPath_stops_at_first_failure_witness :
  readPath_body sample.allowedFormats "/data/cut"
    {| tar.entries := (tar.entries faulty.short
                         ++ tar.entries sample.logs)%list;
       tar.final := faulty.unreachable |}
  = (None, Some (Errorf "failed to copy: " ErrUnexpectedEOF)).
Proof.
  apply (readPath_stops_at_first_failure sample.allowedFormats "/data/cut"
           "failed to copy: " (tar.entries faulty.short)
           (tar.entries sample.logs) faulty.unreachable ErrUnexpectedEOF).
  - right. reflexivity.
  - reflexivity.
Defined.

